(** * OSRS NPC scraper: a shallow embedding of the crawl core

    The development follows the Python sources of the scraper:
    - [src/utils/helpers.py]       ([url_to_filename], [extract_npc_name_from_url])
    - [src/scraper/fetcher.py]     ([URLFetcher.fetch_page])
    - [src/scraper/url_manager.py] ([URLManager], the Redis backed frontier)
    - [src/storage/sql_crud.py]    ([SQLiteCRUDManager.add_crawled_page])
    - [src/scraper/crawler.py]     ([WikiNPCSpider])

    Python [str] values are modelled as Rocq strings (their UTF-8 bytes);
    every separator the code splits on is an ASCII character, so splitting
    bytes and splitting code points agree.  Exceptions are values of [exn]
    carried by the [result] type. *)

From Stdlib Require Import ZArith Ascii String List Lia Bool.
From stdpp Require Import base gmap sets list strings pretty.

Open Scope string_scope.
Open Scope list_scope.
Open Scope Z_scope.

(* [set_solver] clears hypotheses that are sometimes absent already *)
Set Warnings "-clear-no-such-hyp".

(** ** Exceptions and results *)

(** The exception classes the code distinguishes.  [FetchError] is the
    class defined in [fetcher.py]; the others are [Exception] subclasses
    that only the generic [except Exception] clauses can catch. *)
Inductive exn : Type :=
  | FetchError (msg : string)
  | ValueError (msg : string)
  | IOError (msg : string)
  | UnboundLocalError (msg : string)
  | Exception (msg : string).

(** [str(e)] *)
Definition str (e : exn) : string :=
  match e with
  | FetchError m | ValueError m | IOError m
  | UnboundLocalError m | Exception m => m
  end.

Definition is_FetchError (e : exn) : bool :=
  match e with FetchError _ => true | _ => false end.

Inductive result (A : Type) : Type :=
  | Ok (a : A)
  | Raise (e : exn).
Arguments Ok {A} a.
Arguments Raise {A} e.

#[global] Instance result_ret : MRet result := fun A a => Ok a.
#[global] Instance result_bind : MBind result := fun A B k r =>
  match r with
  | Ok a => k a
  | Raise e => Raise e
  end.

(** ** Python string primitives *)

Module Py.

(** [bool(s)] for a [str] *)
Definition truthy (s : string) : bool :=
  match s with EmptyString => false | String _ _ => true end.

(** [bool(o)] for an [Optional[str]] *)
Definition truthy_opt (o : option string) : bool :=
  match o with Some s => truthy s | None => false end.

(** [c in s] *)
Fixpoint contains (c : ascii) (s : string) : bool :=
  match s with
  | EmptyString => false
  | String a s' => Ascii.eqb a c || contains c s'
  end.

(** [s.split(sep)] for a one character separator *)
Fixpoint split (sep : ascii) (s : string) : list string :=
  match s with
  | EmptyString => [EmptyString]
  | String a s' =>
      if Ascii.eqb a sep then EmptyString :: split sep s'
      else match split sep s' with
           | h :: t => String a h :: t
           | [] => [String a EmptyString]
           end
  end.

(** [s.split(sep, 1)]: the text before the first [sep] and, when [sep]
    occurs, the text after it *)
Fixpoint cut (sep : ascii) (s : string) : string * option string :=
  match s with
  | EmptyString => (EmptyString, None)
  | String a s' =>
      if Ascii.eqb a sep then (EmptyString, Some s')
      else let '(h, t) := cut sep s' in (String a h, t)
  end.

(** [(s[:k+1], s[k+1:])] with [k = s.rfind(sep)] *)
Fixpoint rcut (sep : ascii) (s : string) : string * string :=
  match s with
  | EmptyString => (EmptyString, EmptyString)
  | String a s' =>
      let '(h, t) := rcut sep s' in
      if truthy h then (String a h, t)
      else if Ascii.eqb a sep then (String a EmptyString, t)
      else (EmptyString, String a t)
  end.

(** keep the characters satisfying [p] *)
Fixpoint filter (p : ascii -> bool) (s : string) : string :=
  match s with
  | EmptyString => EmptyString
  | String a s' => if p a then String a (filter p s') else filter p s'
  end.

(** [s.lstrip(chars)] with the set [chars] given as a predicate *)
Fixpoint lstrip (p : ascii -> bool) (s : string) : string :=
  match s with
  | EmptyString => EmptyString
  | String a s' => if p a then lstrip p s' else s
  end.

(** the longest prefix whose characters all satisfy [p], and the rest *)
Fixpoint span (p : ascii -> bool) (s : string) : string * string :=
  match s with
  | EmptyString => (EmptyString, EmptyString)
  | String a s' =>
      if p a then let '(h, t) := span p s' in (String a h, t)
      else (EmptyString, s)
  end.

Fixpoint forallb (p : ascii -> bool) (s : string) : bool :=
  match s with
  | EmptyString => true
  | String a s' => p a && forallb p s'
  end.

Definition code (a : ascii) : N := N_of_ascii a.

Definition is_upper (a : ascii) : bool := ((65 <=? code a) && (code a <=? 90))%N.
Definition is_lower (a : ascii) : bool := ((97 <=? code a) && (code a <=? 122))%N.
Definition is_digit (a : ascii) : bool := ((48 <=? code a) && (code a <=? 57))%N.
Definition is_ascii_alpha (a : ascii) : bool := is_upper a || is_lower a.
Definition isascii (s : string) : bool := forallb (fun a => (code a <? 128)%N) s.

Definition lower_char (a : ascii) : ascii :=
  if is_upper a then ascii_of_N (code a + 32) else a.

(** [s.lower()] on ASCII text *)
Fixpoint lower (s : string) : string :=
  match s with
  | EmptyString => EmptyString
  | String a s' => String (lower_char a) (lower s')
  end.

(** [s.rstrip(chars)] *)
Definition rstrip (p : ascii -> bool) (s : string) : string :=
  String.rev (lstrip p (String.rev s)).

(** [sep.join(l)] *)
Fixpoint join (sep : string) (l : list string) : string :=
  match l with
  | [] => EmptyString
  | [x] => x
  | x :: rest => x +:+ sep +:+ join sep rest
  end.

(** [s.replace(old, new)] for a one character [old] *)
Fixpoint replace_char (old : ascii) (new : string) (s : string) : string :=
  match s with
  | EmptyString => EmptyString
  | String a s' =>
      if Ascii.eqb a old then new +:+ replace_char old new s'
      else String a (replace_char old new s')
  end.

(** [x in l] for a list of strings *)
Definition mem (x : string) (l : list string) : bool :=
  existsb (String.eqb x) l.

End Py.

(** ** [urllib.parse]

  The helpers and the list page parser call [urlparse] and [urljoin] of
  the standard library.  The definitions below transcribe CPython 3.11's
  [urllib/parse.py] function by function, with the checks of its security
  releases ([_check_bracketed_netloc] included).  Two host validations that
  [urlsplit] delegates to other modules ([ipaddress] for a bracketed host,
  [unicodedata] NFKC normalisation for a non ASCII authority) are taken as
  parameters: each returns the message of the [ValueError] it raises, or
  [None] when it accepts. *)

Module Urllib.

Record HostChecks : Type := {
  check_bracketed_host : string -> option string;
  check_nfkc : string -> option string
}.

Definition uses_relative : list string :=
  [""; "ftp"; "http"; "gopher"; "nntp"; "imap"; "wais"; "file"; "https";
   "shttp"; "mms"; "prospero"; "rtsp"; "rtspu"; "sftp"; "svn"; "svn+ssh";
   "ws"; "wss"].

Definition uses_netloc : list string :=
  [""; "ftp"; "http"; "gopher"; "nntp"; "telnet"; "imap"; "wais"; "file";
   "mms"; "https"; "shttp"; "snews"; "prospero"; "rtsp"; "rtspu"; "rsync";
   "svn"; "svn+ssh"; "sftp"; "nfs"; "git"; "git+ssh"; "ws"; "wss"].

Definition uses_params : list string :=
  [""; "ftp"; "hdl"; "prospero"; "http"; "imap"; "https"; "shttp"; "rtsp";
   "rtspu"; "sip"; "sips"; "mms"; "sftp"; "tel"].

(** [_WHATWG_C0_CONTROL_OR_SPACE] *)
Definition c0_or_space (a : ascii) : bool := (Py.code a <=? 32)%N.

(** [_UNSAFE_URL_BYTES_TO_REMOVE]: tab, line feed, carriage return *)
Definition unsafe_byte (a : ascii) : bool :=
  ((Py.code a =? 9) || (Py.code a =? 10) || (Py.code a =? 13))%N.

(** [scheme_chars] *)
Definition scheme_char (a : ascii) : bool :=
  Py.is_ascii_alpha a || Py.is_digit a
  || Ascii.eqb a "+" || Ascii.eqb a "-" || Ascii.eqb a ".".

Definition keep_safe (s : string) : string :=
  Py.filter (fun a => negb (unsafe_byte a)) s.

(** the first two statements of [urlsplit] applied to the URL *)
Definition sanitise (url : string) : string :=
  keep_safe (Py.lstrip c0_or_space url).

Definition sanitise_scheme (scheme : string) : string :=
  keep_safe (Py.rstrip c0_or_space (Py.lstrip c0_or_space scheme)).

Record SplitResult : Type := mkSplit {
  s_scheme : string;
  s_netloc : string;
  s_path : string;
  s_query : string;
  s_fragment : string
}.

Definition split_scheme (scheme url : string) : string * string :=
  match Py.cut ":" url with
  | (String a _ as pre, Some rest) =>
      if Py.is_ascii_alpha a && Py.forallb scheme_char pre
      then (Py.lower pre, rest)
      else (scheme, url)
  | _ => (scheme, url)
  end.

Definition netloc_delim (a : ascii) : bool :=
  Ascii.eqb a "/" || Ascii.eqb a "?" || Ascii.eqb a "#".

(** [_splitnetloc(url, 2)] under the guard [url[:2] == '//'] *)
Definition splitnetloc (url : string) : option (string * string) :=
  match url with
  | String a (String b rest) =>
      if Ascii.eqb a "/" && Ascii.eqb b "/"
      then Some (Py.span (fun a => negb (netloc_delim a)) rest)
      else None
  | _ => None
  end.

(** [_check_bracketed_host(hostname)] *)
Definition bracketed_host (hc : HostChecks) (hostname : string) : result unit :=
  match check_bracketed_host hc hostname with
  | Some m => Raise (ValueError m)
  | None => Ok tt
  end.

(** [_check_bracketed_netloc]: no text is allowed before the bracket, and
    after it only a port *)
Definition check_bracketed_netloc (hc : HostChecks) (netloc : string) : result unit :=
  let hostname_and_port := snd (Py.rcut "@" netloc) in
  match Py.cut "[" hostname_and_port with
  | (before_bracket, Some bracketed) =>
      if Py.truthy before_bracket then Raise (ValueError "Invalid IPv6 URL")
      else
        match Py.cut "]" bracketed with
        | (hostname, Some (String c _)) =>
            if negb (Ascii.eqb c ":") then Raise (ValueError "Invalid IPv6 URL")
            else bracketed_host hc hostname
        | (hostname, _) => bracketed_host hc hostname
        end
  | (_, None) => bracketed_host hc (fst (Py.cut ":" hostname_and_port))
  end.

(** the two bracket checks of [urlsplit] on the authority *)
Definition check_brackets (hc : HostChecks) (netloc : string) : result unit :=
  let lb := Py.contains "[" netloc in
  let rb := Py.contains "]" netloc in
  if (lb && negb rb) || (rb && negb lb) then Raise (ValueError "Invalid IPv6 URL")
  else if lb && rb then check_bracketed_netloc hc netloc
  else Ok tt.

(** [_checknetloc] *)
Definition checknetloc (hc : HostChecks) (netloc : string) : result unit :=
  if negb (Py.truthy netloc) || Py.isascii netloc then Ok tt
  else match check_nfkc hc netloc with
       | Some m => Raise (ValueError m)
       | None => Ok tt
       end.

Definition or_empty (o : option string) : string :=
  match o with Some s => s | None => EmptyString end.

(** the [if url[:2] == '//'] block of [urlsplit]: the authority and the
    rest of the URL *)
Definition split_authority (hc : HostChecks) (url : string) : result (string * string) :=
  match splitnetloc url with
  | Some (n, rest) => _ ← check_brackets hc n; Ok (n, rest)
  | None => Ok (EmptyString, url)
  end.

Definition urlsplit (hc : HostChecks) (url scheme : string) : result SplitResult :=
  let url := sanitise url in
  let scheme := sanitise_scheme scheme in
  let '(scheme, url) := split_scheme scheme url in
  '(netloc, url) ← split_authority hc url;
  let '(url, fragment) := Py.cut "#" url in
  let '(url, query) := Py.cut "?" url in
  _ ← checknetloc hc netloc;
  Ok (mkSplit scheme netloc url (or_empty query) (or_empty fragment)).

Record ParseResult : Type := mkParse {
  scheme : string;
  netloc : string;
  path : string;
  params : string;
  query : string;
  fragment : string
}.

(** [_splitparams] *)
Definition splitparams (url : string) : string * string :=
  let '(dir, seg) := Py.rcut "/" url in
  match Py.cut ";" seg with
  | (a, Some b) => (dir +:+ a, b)
  | (_, None) => (url, EmptyString)
  end.

Definition urlparse (hc : HostChecks) (url scheme : string) : result ParseResult :=
  sr ← urlsplit hc url scheme;
  let '(p, prm) :=
    if Py.mem (s_scheme sr) uses_params && Py.contains ";" (s_path sr)
    then splitparams (s_path sr)
    else (s_path sr, EmptyString) in
  Ok (mkParse (s_scheme sr) (s_netloc sr) p prm (s_query sr) (s_fragment sr)).

Definition starts_with_slash (s : string) : bool :=
  match s with String a _ => Ascii.eqb a "/" | _ => false end.

Definition starts_with_two_slashes (s : string) : bool :=
  match s with
  | String a (String b _) => Ascii.eqb a "/" && Ascii.eqb b "/"
  | _ => false
  end.

Definition urlunsplit (sr : SplitResult) : string :=
  let url := s_path sr in
  let url :=
    if Py.truthy (s_netloc sr)
       || (Py.truthy (s_scheme sr) && Py.mem (s_scheme sr) uses_netloc
           && negb (starts_with_two_slashes url))
    then
      let url := if Py.truthy url && negb (starts_with_slash url)
                 then "/" +:+ url else url in
      "//" +:+ s_netloc sr +:+ url
    else url in
  let url := if Py.truthy (s_scheme sr) then s_scheme sr +:+ ":" +:+ url else url in
  let url := if Py.truthy (s_query sr) then url +:+ "?" +:+ s_query sr else url in
  if Py.truthy (s_fragment sr) then url +:+ "#" +:+ s_fragment sr else url.

Definition urlunparse (pr : ParseResult) : string :=
  let url := if Py.truthy (params pr) then path pr +:+ ";" +:+ params pr
             else path pr in
  urlunsplit (mkSplit (scheme pr) (netloc pr) url (query pr) (fragment pr)).

(** [segments[1:-1] = filter(None, segments[1:-1])] *)
Definition filter_middle (segments : list string) : list string :=
  match segments with
  | [] => []
  | x :: rest =>
      match rest with
      | [] => [x]
      | _ => x :: List.filter Py.truthy (removelast rest) ++ [List.last rest EmptyString]
      end
  end.

(** the loop of [urljoin] over the segments *)
Fixpoint resolve (segments resolved_path : list string) : list string :=
  match segments with
  | [] => resolved_path
  | seg :: rest =>
      if String.eqb seg ".." then resolve rest (removelast resolved_path)
      else if String.eqb seg "." then resolve rest resolved_path
      else resolve rest (resolved_path ++ [seg])
  end.

Definition urljoin (hc : HostChecks) (base url : string) : result string :=
  if negb (Py.truthy base) then Ok url
  else if negb (Py.truthy url) then Ok base
  else
    b ← urlparse hc base EmptyString;
    u ← urlparse hc url (scheme b);
    if negb (String.eqb (scheme u) (scheme b)) || negb (Py.mem (scheme u) uses_relative)
    then Ok url
    else if Py.mem (scheme u) uses_netloc && Py.truthy (netloc u)
    then Ok (urlunparse u)
    else
      let netloc' := if Py.mem (scheme u) uses_netloc then netloc b else netloc u in
      if negb (Py.truthy (path u)) && negb (Py.truthy (params u)) then
        let query' := if Py.truthy (query u) then query u else query b in
        Ok (urlunparse (mkParse (scheme u) netloc' (path b) (params b) query' (fragment u)))
      else
        let base_parts := Py.split "/" (path b) in
        let base_parts :=
          if Py.truthy (List.last base_parts EmptyString)
          then removelast base_parts else base_parts in
        let segments :=
          if starts_with_slash (path u) then Py.split "/" (path u)
          else filter_middle (base_parts ++ Py.split "/" (path u)) in
        let resolved_path := resolve segments [] in
        let last_seg := List.last segments EmptyString in
        let resolved_path :=
          if String.eqb last_seg "." || String.eqb last_seg ".."
          then resolved_path ++ [EmptyString] else resolved_path in
        let joined := Py.join "/" resolved_path in
        let joined := if Py.truthy joined then joined else "/" in
        Ok (urlunparse (mkParse (scheme u) netloc' joined (params u) (query u) (fragment u))).

(** [unquote] of [urllib.parse] decodes percent escapes and then decodes
    the bytes as UTF-8 with replacement of invalid sequences; only its
    type matters to the crawl, so it is left as a parameter where it is
    used. *)

End Urllib.

(** Host checks that accept every host, used where a concrete URL with a
  plain ASCII host name is evaluated (such URLs reach neither check). *)
Definition accept_all_hosts : Urllib.HostChecks :=
{| Urllib.check_bracketed_host := fun _ => None;
   Urllib.check_nfkc := fun _ => None |}.

(** ** [src/utils/helpers.py] *)

Section Helpers.

Context (hc : Urllib.HostChecks).

(** [urlparse(url).path] *)
Definition urlparse_path (url : string) : result string :=
  pr ← Urllib.urlparse hc url EmptyString; Ok (Urllib.path pr).

(** [url_to_filename(url, extension)]; the Python default for
    [extension] is ["html"], written [Some "html"] at the call sites. *)
Definition url_to_filename (url : string) (extension : option string) : result string :=
  path ← urlparse_path url;
  let filename := List.last (Py.split "/" path) EmptyString in
  let filename := List.hd EmptyString (Py.split "#" filename) in
  let filename := if negb (Py.truthy filename) then "unnamed" else filename in
  match extension with
  | None => Ok filename
  | Some ext => Ok (filename +:+ "." +:+ ext)
  end.

(** [extract_npc_name_from_url(url)], over the library's [unquote] *)
Definition extract_npc_name_from_url (unquote : string -> string) (url : string)
  : result string :=
  path ← urlparse_path url;
  let name := List.hd EmptyString (Py.split "#" (List.last (Py.split "/" path) EmptyString)) in
  Ok (Py.replace_char "_" " " (unquote name)).

End Helpers.


(** ** [src/scraper/fetcher.py] *)

Module Fetcher.

(** What one [await self.client.get(url)] followed by
    [response.raise_for_status()] can do, by the [except] clause that
    receives it.  [httpx.TimeoutException] is a subclass of
    [httpx.RequestError], so the timeout clause is listed first in the
    source and the two cases are disjoint here. *)
Inductive reply : Type :=
  | Responded (status_code : Z) (text : string)
  | TimeoutException (e : string)
  | RequestError (e : string)
  | Unexpected (e : string).

Record Response : Type := mkResponse {
  status_code : Z;
  text : string
}.

(** [httpx.Response.is_success]: [raise_for_status] raises
    [HTTPStatusError] on every status outside 200..299 *)
Definition is_success (status : Z) : bool :=
  (200 <=? status) && (status <=? 299).

(** [random.randint(a, b)]: an integer of [a..b], both ends included,
    chosen by the draw [r] of the generator *)
Definition randint (a b r : Z) : Z := a + r mod (b - a + 1).

Record URLFetcher : Type := mkFetcher {
  timeout : Z;
  retries : Z;
  rate_limit : Z
}.

(** The outside world of one [fetch_page] call: the [k]-th draw of the
    random generator and the [k]-th reply of the network, [k] from 0. *)
Record Network : Type := mkNetwork {
  draws : nat -> Z;
  replies : nat -> reply
}.

Inductive event : Type :=
  | Sleep (seconds : Z)
  | Get (attempt : Z).

(** one more iteration in front of what the rest of the loop does *)
Definition after_events {A} (evs : list event) (r : list event * A) : list event * A :=
  (evs ++ fst r, snd r).

(** the sleep and the request that open iteration [k] *)
Definition sleep_and_get (self : URLFetcher) (net : Network) (attempt : Z) (k : nat)
    : list event :=
  [Sleep (randint (rate_limit self - 1) (rate_limit self + 3) (draws net k)); Get attempt].

(** The [for attempt in range(1, self.retries + 1)] loop: [remaining]
    iterations are left, [k] iterations are done, [response] is the current
    binding of the local variable of that name.  The result lists the
    sleeps and requests made, in order, and the outcome. *)
Fixpoint fetch_loop (self : URLFetcher) (net : Network) (remaining : nat)
    (attempt : Z) (k : nat) (response : option Response)
    : list event * result Response :=
  match remaining with
  | O =>
      (* [return response] after the loop *)
      match response with
      | Some r => ([], Ok r)
      | None =>
          ([], Raise (UnboundLocalError
             "cannot access local variable 'response' where it is not associated with a value"))
      end
  | S remaining' =>
      after_events (sleep_and_get self net attempt k)
        match replies net k with
        | Responded code body =>
            let r := mkResponse code body in
            if is_success code then ([], Ok r)
            else if attempt =? retries self
            then ([], Raise (FetchError ("HTTP error: " +:+ pretty code)))
            else fetch_loop self net remaining' (attempt + 1) (S k) (Some r)
        | TimeoutException e =>
            if attempt =? retries self
            then ([], Raise (FetchError "Request timed out"))
            else fetch_loop self net remaining' (attempt + 1) (S k) response
        | RequestError e =>
            if attempt =? retries self
            then ([], Raise (FetchError ("Request error: " +:+ e)))
            else fetch_loop self net remaining' (attempt + 1) (S k) response
        | Unexpected e =>
            ([], Raise (FetchError ("Unexpected error: " +:+ e)))
        end
  end.

(** [URLFetcher.fetch_page]: the events it performs and its outcome *)
Definition fetch_page (self : URLFetcher) (net : Network)
    : list event * result Response :=
  fetch_loop self net (Z.to_nat (retries self)) 1 0%nat None.

(** the number of requests in a trace *)
Definition attempts (trace : list event) : nat :=
  length (List.filter (fun ev => match ev with Get _ => true | Sleep _ => false end) trace).

(** the delays slept in a trace, in order *)
Definition delays (trace : list event) : list Z :=
  omap (fun ev => match ev with Sleep d => Some d | Get _ => None end) trace.

(** every request of the trace comes right after a sleep whose duration
    satisfies [ok] *)
Fixpoint sleeps_before_gets (ok : Z -> Prop) (trace : list event) : Prop :=
  match trace with
  | [] => True
  | Sleep d :: Get _ :: rest => ok d /\ sleeps_before_gets ok rest
  | _ => False
  end.

(** a reply that the retry loop absorbs until the last attempt *)
Definition retriable (r : reply) : bool :=
  match r with
  | Responded code _ => negb (is_success code)
  | TimeoutException _ | RequestError _ => true
  | Unexpected _ => false
  end.

(** the cause string [fetch_page] gives to the [FetchError] of a reply *)
Definition cause (r : reply) : string :=
  match r with
  | Responded code _ => "HTTP error: " +:+ pretty code
  | TimeoutException _ => "Request timed out"
  | RequestError e => "Request error: " +:+ e
  | Unexpected e => "Unexpected error: " +:+ e
  end.

End Fetcher.

(** ** [src/scraper/url_manager.py] *)

Module URLManager.

(** [ImageData] of [scraper_models.py] *)
Record ImageData : Type := mkImageData {
  image_url : string;
  npc_name : string;
  page_url : string
}.

(** The image retry set stores [image_data.model_dump_json()]; the dump
    determines the three fields and conversely, so a member is kept as the
    triple of its fields. *)
Definition model_dump_json (d : ImageData) : string * string * string :=
  (image_url d, npc_name d, page_url d).

Definition model_validate (j : string * string * string) : ImageData :=
  mkImageData j.1.1 j.1.2 j.2.

(** The four Redis keys the manager owns: three sets and one hash. *)
Record Redis : Type := mkRedis {
  crawl_queue : gset string;
  visited_urls : gset string;
  failed_urls : gmap string string;
  image_retry_queue : gset (string * string * string)
}.

Definition empty : Redis := mkRedis ∅ ∅ ∅ ∅.

(** [SADD key member]: the number of members that were new *)
Definition sadd `{Countable A} (member : A) (s : gset A) : Z * gset A :=
  (if decide (member ∈ s) then 0 else 1, {[member]} ∪ s).

(** [SPOP key]: removes and returns a member picked by the server, [None]
    on the empty set; [pick] is the server's random choice *)
Definition spop `{Countable A} (pick : nat) (s : gset A) : option A * gset A :=
  match elements s !! (pick mod size s)%nat with
  | Some x => (Some x, s ∖ {[x]})
  | None => (None, s)
  end.

Definition is_visited (url : string) (r : Redis) : bool :=
  bool_decide (url ∈ visited_urls r).

Definition add_to_queue (url : string) (r : Redis) : bool * Redis :=
  if is_visited url r then (false, r)
  else
    let '(added, q) := sadd url (crawl_queue r) in
    (negb (added =? 0),
     mkRedis q (visited_urls r) (failed_urls r) (image_retry_queue r)).

Definition add_multiple_to_queue (urls : list string) (r : Redis) : Z * Redis :=
  match urls with
  | [] => (0, r)
  | _ =>
      let new_urls := List.filter (fun url => negb (is_visited url r)) urls in
      match new_urls with
      | [] => (0, r)
      | _ =>
          let fresh : gset string := list_to_set new_urls ∖ crawl_queue r in
          (Z.of_nat (size fresh),
           mkRedis (list_to_set new_urls ∪ crawl_queue r) (visited_urls r)
                   (failed_urls r) (image_retry_queue r))
      end
  end.

Definition get_next_url (pick : nat) (r : Redis) : option string * Redis :=
  let '(url, q) := spop pick (crawl_queue r) in
  (url, mkRedis q (visited_urls r) (failed_urls r) (image_retry_queue r)).

Definition mark_visited (url : string) (r : Redis) : Redis :=
  mkRedis (crawl_queue r) ({[url]} ∪ visited_urls r) (failed_urls r)
          (image_retry_queue r).

Definition mark_failed (url error : string) (r : Redis) : Redis :=
  mkRedis (crawl_queue r) (visited_urls r) (<[url := error]> (failed_urls r))
          (image_retry_queue r).

Definition add_to_image_queue (image_url npc_name page_url : string) (r : Redis)
    : bool * Redis :=
  let image_data := mkImageData image_url npc_name page_url in
  let '(added, q) := sadd (model_dump_json image_data) (image_retry_queue r) in
  (negb (added =? 0),
   mkRedis (crawl_queue r) (visited_urls r) (failed_urls r) q).

Definition get_next_image_data (pick : nat) (r : Redis) : option ImageData * Redis :=
  let '(j, q) := spop pick (image_retry_queue r) in
  (model_validate <$> j,
   mkRedis (crawl_queue r) (visited_urls r) (failed_urls r) q).

Definition get_image_queue_size (r : Redis) : Z := Z.of_nat (size (image_retry_queue r)).
Definition get_queue_size (r : Redis) : Z := Z.of_nat (size (crawl_queue r)).
Definition get_visited_count (r : Redis) : Z := Z.of_nat (size (visited_urls r)).
Definition get_failed_count (r : Redis) : Z := Z.of_nat (size (failed_urls r)).

Definition clear_all (r : Redis) : Redis := empty.

(** The calls a client of the manager can make, and what each returns. *)
Inductive call : Type :=
  | AddToQueue (url : string)
  | AddMultipleToQueue (urls : list string)
  | GetNextUrl (pick : nat)
  | MarkVisited (url : string)
  | MarkFailed (url error : string)
  | AddToImageQueue (image_url npc_name page_url : string)
  | GetNextImageData (pick : nat)
  | ClearAll.

Inductive answer : Type :=
  | RBool (b : bool)
  | RInt (n : Z)
  | RUrl (url : option string)
  | RImage (d : option ImageData)
  | RNone.

Definition perform (c : call) (r : Redis) : answer * Redis :=
  match c with
  | AddToQueue url => let '(b, r') := add_to_queue url r in (RBool b, r')
  | AddMultipleToQueue urls => let '(n, r') := add_multiple_to_queue urls r in (RInt n, r')
  | GetNextUrl pick => let '(u, r') := get_next_url pick r in (RUrl u, r')
  | MarkVisited url => (RNone, mark_visited url r)
  | MarkFailed url error => (RNone, mark_failed url error r)
  | AddToImageQueue i n p => let '(b, r') := add_to_image_queue i n p r in (RBool b, r')
  | GetNextImageData pick => let '(d, r') := get_next_image_data pick r in (RImage d, r')
  | ClearAll => (RNone, clear_all r)
  end.

(** a sequence of calls, with the answers in order *)
Fixpoint perform_all (cs : list call) (r : Redis) : list answer * Redis :=
  match cs with
  | [] => ([], r)
  | c :: cs' =>
      let '(a, r1) := perform c r in
      let '(l, r2) := perform_all cs' r1 in
      (a :: l, r2)
  end.

Definition is_clear_all (c : call) : bool :=
  match c with ClearAll => true | _ => false end.

(** [clear_all] is not among the calls *)
Definition no_clear_all (cs : list call) : bool :=
  forallb (fun c => negb (is_clear_all c)) cs.

(** the URL is visited and not pending *)
Definition settled (u : string) (r : Redis) : Prop :=
  u ∈ visited_urls r /\ u ∉ crawl_queue r.

End URLManager.

(** ** [src/models/db_models.py] and [src/storage/sql_crud.py] *)

Module Sql.

(** A row of [crawled_pages].  Timestamps are integers (microseconds of
    UTC time); nullable text columns are options. *)
Record CrawledPage : Type := mkPage {
  id : Z;
  url : string;
  content : string;
  npc_name : string;
  has_image : bool;
  image_url : option string;
  image_filename : option string;
  image_status : option string;
  image_size : Z;
  status : string;
  html_file_size : Z;
  crawled_at : Z;
  updated_at : Z
}.

(** The table (rows in insertion order) together with the number of
    readings of the wall clock made so far. *)
Record Database : Type := mkDatabase {
  crawled_pages : list CrawledPage;
  clock_reads : nat
}.

(** [session.query(CrawledPage).filter_by(url=url).first()] *)
Definition first_by_url (u : string) (rows : list CrawledPage) : option CrawledPage :=
  List.find (fun p => String.eqb (url p) u) rows.

(** the row that [first_by_url] returns, mutated in place by [f] *)
Fixpoint update_first (u : string) (f : CrawledPage -> CrawledPage)
    (rows : list CrawledPage) : list CrawledPage :=
  match rows with
  | [] => []
  | p :: rest =>
      if String.eqb (url p) u then f p :: rest
      else p :: update_first u f rest
  end.

(** the integer primary key SQLite gives to a new row *)
Definition next_id (rows : list CrawledPage) : Z :=
  1 + fold_right Z.max 0 (List.map id rows).

(** [if value: row.column = value] on a nullable text column *)
Definition overwrite_if_truthy (new old : option string) : option string :=
  if Py.truthy_opt new then new else old.

(** The arguments of [add_crawled_page]. *)
Record PageFields : Type := mkFields {
  f_url : string;
  f_npc_name : string;
  f_html_filename : string;
  f_has_image : bool;
  f_image_url : option string;
  f_image_filename : option string;
  f_image_status : option string;
  f_image_size : Z;
  f_status : string;
  f_html_file_size : Z
}.

(** The Python defaults of the keyword arguments:
    [has_image=False, image_url=None, image_filename=None,
    image_status=None, image_size=0, status="success", html_file_size=0]. *)
Definition default_fields (u name html_filename : string) : PageFields :=
  mkFields u name html_filename false None None None 0 "success" 0.

(** the update branch of [add_crawled_page] on the row found *)
Definition updated_row (a : PageFields) (now : Z) (p : CrawledPage) : CrawledPage :=
  mkPage (id p) (url p) (f_html_filename a) (f_npc_name a) (f_has_image a)
         (overwrite_if_truthy (f_image_url a) (image_url p))
         (overwrite_if_truthy (f_image_filename a) (image_filename p))
         (overwrite_if_truthy (f_image_status a) (image_status p))
         (f_image_size a) (f_status a) (f_html_file_size a)
         (crawled_at p) now.

(** the insert branch: the new row, with the column default ["no_image"]
    where [image_status] is not assigned *)
Definition inserted_row (a : PageFields) (new_id crawled updated : Z) : CrawledPage :=
  mkPage new_id (f_url a) (f_html_filename a) (f_npc_name a) (f_has_image a)
         (overwrite_if_truthy (f_image_url a) None)
         (overwrite_if_truthy (f_image_filename a) None)
         (overwrite_if_truthy (f_image_status a) (Some "no_image"))
         (f_image_size a) (f_status a) (f_html_file_size a)
         crawled updated.

(** What the caller holds after a query method has returned an ORM
    instance loaded in its session: [get_session] has committed and closed
    the session by then, the commit has expired the attributes of the
    instance and the instance is detached, so reading any column of it
    raises [DetachedInstanceError].  That there is an instance is all the
    caller can observe. *)
Inductive DetachedInstance : Type := Detached.

(** [get_crawled_page(url)]:
    [session.query(CrawledPage).filter_by(url=url).first()], returned
    through the closing session *)
Definition get_crawled_page (u : string) (db : Database) : option DetachedInstance :=
  match first_by_url u (crawled_pages db) with
  | Some _ => Some Detached
  | None => None
  end.

Section Clock.

(** [utcnow k] is the [k]-th reading of [datetime.now(timezone.utc)]. *)
Context (utcnow : nat -> Z).

(** The body of [add_crawled_page] inside its session. *)
Definition add_crawled_page_body (a : PageFields) (db : Database) : Database :=
  let k := clock_reads db in
  match first_by_url (f_url a) (crawled_pages db) with
  | Some _ =>
      mkDatabase (update_first (f_url a) (updated_row a (utcnow k)) (crawled_pages db))
                 (S k)
  | None =>
      mkDatabase (crawled_pages db ++
                  [inserted_row a (next_id (crawled_pages db)) (utcnow k) (utcnow (S k))])
                 (S (S k))
  end.

(** [get_session]: commit when the body succeeds; on an exception roll
    back and raise it again.  [fault] is the exception the engine raises
    during this session, if any; the rows a failed session would have
    stamped are rolled back, so its clock readings are not counted. *)
Definition get_session (fault : option exn) (body : Database -> Database)
    (db : Database) : result unit * Database :=
  match fault with
  | Some e => (Raise e, db)
  | None => (Ok tt, body db)
  end.

Definition add_crawled_page (fault : option exn) (a : PageFields) (db : Database)
    : result unit * Database :=
  get_session fault (add_crawled_page_body a) db.

(** the row the upsert leaves under the URL of its arguments *)
Definition upserted (a : PageFields) (db : Database) : CrawledPage :=
  match first_by_url (f_url a) (crawled_pages db) with
  | Some p => updated_row a (utcnow (clock_reads db)) p
  | None => inserted_row a (next_id (crawled_pages db))
              (utcnow (clock_reads db)) (utcnow (S (clock_reads db)))
  end.

End Clock.

(** the rows stored under a URL *)
Definition rows_of (u : string) (db : Database) : list CrawledPage :=
  List.filter (fun p => String.eqb (url p) u) (crawled_pages db).

(** the [unique=True] constraint of the [url] column *)
Definition unique_urls (db : Database) : Prop :=
  NoDup (List.map url (crawled_pages db)).

End Sql.

(** ** The parse tree of [BeautifulSoup(html, "html.parser")]

    The parser itself is a collaborator: it returns a tree, or raises on
    the markup it rejects ([html.parser] raises [AssertionError] on an
    unknown marked section such as ['<![foo bar]>'], which [bs4] raises
    again as [ParserRejectedMarkup]).  The crawler only navigates the
    tree, through [find_all],
    [find], [get] and [.string], which are modelled here as [bs4] defines
    them.  The [class] attribute is kept apart from the others because
    [bs4] stores it as the list of its white space separated tokens.
    Comments and other text-like nodes are [NavigableString]s, as in
    [bs4]. *)

Module Bs4.

#[warnings="-register-all"]
Inductive node : Type :=
  | NavigableString (s : string)
  | Tag (name : string) (class_ : option (list string))
        (attrs : list (string * string)) (contents : list node).

(** [tag.descendants]: every node below [n], in document order *)
Fixpoint descendants (n : node) : list node :=
  match n with
  | NavigableString _ => []
  | Tag _ _ _ cs =>
      (fix below (l : list node) : list node :=
         match l with
         | [] => []
         | c :: l' => c :: descendants c ++ below l'
         end) cs
  end.

(** [soup.descendants] for the top level nodes of a document *)
Definition soup_descendants (soup : list node) : list node :=
  flat_map (fun c => c :: descendants c) soup.

Definition has_name (nm : string) (n : node) : bool :=
  match n with
  | Tag nm' _ _ _ => String.eqb nm' nm
  | NavigableString _ => false
  end.

(** matching [attrs={"class": c}]: some token of the class list is [c] *)
Definition has_class (c : string) (n : node) : bool :=
  match n with
  | Tag _ (Some tokens) _ _ => Py.mem c tokens
  | _ => false
  end.

(** [tag.get(key)] for a single valued attribute *)
Definition get (key : string) (n : node) : option string :=
  match n with
  | Tag _ _ attrs _ => snd <$> List.find (fun kv => String.eqb (fst kv) key) attrs
  | NavigableString _ => None
  end.

(** [tag.string] *)
Fixpoint string_of (n : node) : option string :=
  match n with
  | NavigableString s => Some s
  | Tag _ _ _ [c] => string_of c
  | Tag _ _ _ _ => None
  end.

Definition has_string (s : string) (n : node) : bool :=
  match string_of n with
  | Some s' => String.eqb s' s
  | None => false
  end.

(** [find_all(name=nm)] below a tag *)
Definition find_all (nm : string) (n : node) : list node :=
  List.filter (has_name nm) (descendants n).

(** [find(name=nm)] below a tag *)
Definition find (nm : string) (n : node) : option node :=
  List.hd_error (find_all nm n).

End Bs4.

(** ** [WikiNPCSpider.parse_npc_list_page] of [src/scraper/crawler.py] *)

Module ListPage.

Record CrawlNPCListPageResult : Type := mkListPage {
  npc_urls : list string;
  next_page_url : option string
}.

(** [soup.find_all(name="div", attrs={"class": "mw-category"})] *)
Definition category_divs (soup : list Bs4.node) : list Bs4.node :=
  List.filter (fun n => Bs4.has_name "div" n && Bs4.has_class "mw-category" n)
              (Bs4.soup_descendants soup).

(** [content_divs[1] if len(content_divs) > 1 else content_divs[0]] *)
Definition content_div (content_divs : list Bs4.node) : option Bs4.node :=
  match content_divs with
  | [] => None
  | d0 :: [] => Some d0
  | _ :: d1 :: _ => Some d1
  end.

(** the [href] of the first anchor of an [li], when
    [link and link.get("href")] holds *)
Definition li_href (li : Bs4.node) : option string :=
  match Bs4.find "a" li with
  | Some link =>
      match Bs4.get "href" link with
      | Some href => if Py.truthy href then Some href else None
      | None => None
      end
  | None => None
  end.

(** the hrefs the loop over [content_div.find_all(name="li")] joins *)
Definition link_hrefs (div : Bs4.node) : list string :=
  omap li_href (Bs4.find_all "li" div).

(** [soup.find(name="a", string="next page")] and its usable [href] *)
Definition next_page_href (soup : list Bs4.node) : option string :=
  match List.find (fun n => Bs4.has_name "a" n && Bs4.has_string "next page" n)
                  (Bs4.soup_descendants soup) with
  | Some link =>
      match Bs4.get "href" link with
      | Some href => if Py.truthy href then Some href else None
      | None => None
      end
  | None => None
  end.

Section Parser.

Context (hc : Urllib.HostChecks) (base_url : string).

(** the loop that fills [npc_links] *)
Fixpoint join_all (hrefs : list string) : result (list string) :=
  match hrefs with
  | [] => Ok []
  | href :: rest =>
      full_url ← Urllib.urljoin hc base_url href;
      links ← join_all rest;
      Ok (full_url :: links)
  end.

(** [parse_npc_list_page] after its first statement, on the tree of the page *)
Definition parse_soup (soup : list Bs4.node) : result CrawlNPCListPageResult :=
  match content_div (category_divs soup) with
  | None => Ok (mkListPage [] None)
  | Some div =>
      npc_links ← join_all (link_hrefs div);
      next ← match next_page_href soup with
              | Some href => u ← Urllib.urljoin hc base_url href; Ok (Some u)
              | None => Ok None
              end;
      Ok (mkListPage npc_links next)
  end.

(** [parse_npc_list_page(html_content)], over the HTML parser: nothing
    in the method catches what [BeautifulSoup(html_content, "html.parser")]
    or [urljoin] raises *)
Definition parse_npc_list_page (BeautifulSoup : string -> result (list Bs4.node))
    (html_content : string) : result CrawlNPCListPageResult :=
  soup ← BeautifulSoup html_content;
  parse_soup soup.

End Parser.

End ListPage.

(** ** [WikiNPCSpider] of [src/scraper/crawler.py]: the per-page pipeline *)

Module Crawler.

(** [CrawlNPCResult] *)
Record CrawlNPCResult : Type := mkCrawlNPCResult {
  html_success : bool;
  image_success : bool;
  error_message : option string
}.

(** [ImageUrlExtractionResult] *)
Record ImageUrlExtractionResult : Type := mkExtraction {
  image_url : option string;
  found : bool
}.

(** [ImageDownloadResult] *)
Record ImageDownloadResult : Type := mkDownload {
  success : bool;
  image_path : option string;
  download_error : option string
}.

(** [CrawlAllNPCsResult] *)
Record CrawlAllNPCsResult : Type := mkCrawlAll {
  total_npcs_crawled : Z;
  total_images_downloaded : Z;
  total_image_failures : Z;
  total_successful : Z;
  total_failed : Z
}.

(** The spider receives its fetcher, HTML store and image handler through
    its constructor.  What they do for one page is the environment of the
    pipeline: each field is the outcome of the call named in its comment,
    a value or the exception the call raises. *)
Record PageEnv : Type := mkPageEnv {
  (** [(await self.fetcher.fetch_page(npc_url)).text] *)
  fetched : result string;
  (** [self.html_store.save(...)] and [filepath.stat().st_size]:
      [str(filepath)] and the size in bytes *)
  saved : result (string * Z);
  (** [self.image_handler.extract_image_url(html)] *)
  extracted : result ImageUrlExtractionResult;
  (** [await self.image_handler.download_npc_image(image_url)] *)
  downloaded : result ImageDownloadResult;
  (** [Path(image_file_path).stat().st_size] *)
  image_stat : result Z;
  (** the exception the record store raises in this page's session, if any *)
  db_fault : option exn
}.

(** The durable state the pipeline writes: the Redis keys of the URL
    manager and the record store.  The Redis server is taken to answer
    every call; a failure of the record store is the [db_fault] of the
    page. *)
Record World : Type := mkWorld {
  redis : URLManager.Redis;
  db : Sql.Database
}.

(** Computations that update the world and return or raise. *)
Definition M (A : Type) : Type := World -> World * result A.

Definition ret {A} (a : A) : M A := fun w => (w, Ok a).
Definition raise {A} (e : exn) : M A := fun w => (w, Raise e).
Definition bind {A B} (m : M A) (k : A -> M B) : M B :=
  fun w => match m w with
           | (w', Ok a) => k a w'
           | (w', Raise e) => (w', Raise e)
           end.
Definition lift {A} (r : result A) : M A := fun w => (w, r).

(** [try: body  except FetchError: on_fetch_error  except Exception: on_exception] *)
Definition try_except {A} (body : M A) (on_fetch_error on_exception : exn -> M A) : M A :=
  fun w => match body w with
           | (w', Ok a) => (w', Ok a)
           | (w', Raise e) =>
               if is_FetchError e then on_fetch_error e w' else on_exception e w'
           end.

Notation "x <~ m ;; k" := (bind m (fun x => k))
  (at level 100, m at next level, right associativity).
Notation "m ;;; k" := (bind m (fun _ => k))
  (at level 100, right associativity).

Section Spider.

Context (hc : Urllib.HostChecks).
Context (unquote : string -> string).
Context (utcnow : nat -> Z).

Definition with_redis {A} (f : URLManager.Redis -> A * URLManager.Redis) : M A :=
  fun w => let '(a, r) := f (redis w) in (mkWorld r (db w), Ok a).

(** [self.url_manager.mark_visited(url)] *)
Definition mark_visited (url : string) : M unit :=
  with_redis (fun r => (tt, URLManager.mark_visited url r)).

(** [self.url_manager.mark_failed(url, error)] *)
Definition mark_failed (url error : string) : M unit :=
  with_redis (fun r => (tt, URLManager.mark_failed url error r)).

(** [self.url_manager.add_to_image_queue(...)] *)
Definition add_to_image_queue (image_url npc_name page_url : string) : M bool :=
  with_redis (URLManager.add_to_image_queue image_url npc_name page_url).

(** [self.db_manager.add_crawled_page(...)] *)
Definition add_crawled_page (fault : option exn) (a : Sql.PageFields) : M unit :=
  fun w => let '(r, d) := Sql.add_crawled_page utcnow fault a (db w) in
           (mkWorld (redis w) d, r).

(** The values the image branch leaves in the local variables
    [has_image], [image_filename], [image_size_bytes], [image_status]. *)
Record ImageLocals : Type := mkLocals {
  l_has_image : bool;
  l_image_filename : option string;
  l_image_size_bytes : option Z;
  l_image_status : string
}.

(** lines 106-133 of [crawl_npc_page] *)
Definition image_branch (env : PageEnv) (npc_url npc_name : string)
    (ex : ImageUrlExtractionResult) : M ImageLocals :=
  match image_url ex with
  | Some url =>
      if found ex && Py.truthy url then
        dl <~ lift (downloaded env);;
        if success dl && Py.truthy_opt (image_path dl) then
          image_filename <~ lift (url_to_filename hc url None);;
          size <~ lift (image_stat env);;
          ret (mkLocals true (Some image_filename) (Some size) "success")
        else
          add_to_image_queue url npc_name npc_url;;;
          ret (mkLocals false None None "found")
      else ret (mkLocals false None None "not_found")
  | None => ret (mkLocals false None None "not_found")
  end.

(** [image_size_bytes or 0] *)
Definition or_zero (o : option Z) : Z :=
  match o with
  | Some n => n
  | None => 0
  end.

(** the keyword arguments of the [add_crawled_page] call at the end of
    the [try] body *)
Definition success_fields (npc_url npc_name filepath : string) (html_file_size : Z)
    (ex : ImageUrlExtractionResult) (loc : ImageLocals) : Sql.PageFields :=
  Sql.mkFields npc_url npc_name filepath (l_has_image loc) (image_url ex)
    (l_image_filename loc) (Some (l_image_status loc))
    (or_zero (l_image_size_bytes loc)) "success" html_file_size.

(** the arguments of the [add_crawled_page] call of the [FetchError]
    handler; the other keyword arguments keep their defaults *)
Definition failed_fields (npc_url npc_name filename : string) : Sql.PageFields :=
  Sql.mkFields npc_url npc_name filename false None None None 0 "failed" 0.

(** the body of the [try] of [crawl_npc_page] *)
Definition crawl_npc_page_try (env : PageEnv) (npc_url npc_name : string)
    : M CrawlNPCResult :=
  html <~ lift (fetched env);;
  file <~ lift (saved env);;
  let '(filepath, html_file_size) := file in
  ex <~ lift (extracted env);;
  loc <~ image_branch env npc_url npc_name ex;;
  add_crawled_page (db_fault env)
    (success_fields npc_url npc_name filepath html_file_size ex loc);;;
  mark_visited npc_url;;;
  ret (mkCrawlNPCResult true (l_has_image loc) None).

(** [crawl_npc_page(npc_url)] *)
Definition crawl_npc_page (env : PageEnv) (npc_url : string) : M CrawlNPCResult :=
  npc_name <~ lift (extract_npc_name_from_url hc unquote npc_url);;
  filename <~ lift (url_to_filename hc npc_url (Some "html"));;
  try_except
    (crawl_npc_page_try env npc_url npc_name)
    (fun fe =>
       add_crawled_page (db_fault env) (failed_fields npc_url npc_name filename);;;
       mark_failed npc_url (str fe);;;
       ret (mkCrawlNPCResult false false (Some (str fe))))
    (fun e =>
       mark_failed npc_url (str e);;;
       ret (mkCrawlNPCResult false false (Some (str e)))).

(** *** The same pipeline when Redis can fail

    Above, the Redis server answers every call.  Here each call of the
    URL manager made by [crawl_npc_page] is given the failure of the
    client for it, if any: the exception raised (a [RedisError], which is
    an [Exception]) and whether the server had executed the command when
    the client raised (a connection lost before the command was sent, or
    before its reply was read). *)
Record RedisFault : Type := mkRedisFault {
  raised : exn;
  executed : bool
}.

Record RedisFaults : Type := mkRedisFaults {
  add_to_image_queue_fault : option RedisFault;
  mark_visited_fault : option RedisFault;
  mark_failed_fault : option RedisFault
}.

Definition redis_answers : RedisFaults := mkRedisFaults None None None.

(** the call [m], or the failure of Redis for it *)
Definition unless {A} (fault : option RedisFault) (m : M A) : M A :=
  match fault with
  | Some f => if executed f then (m;;; raise (raised f)) else raise (raised f)
  | None => m
  end.

(** lines 106-133 of [crawl_npc_page] *)
Definition image_branch_under (rf : RedisFaults) (env : PageEnv)
    (npc_url npc_name : string) (ex : ImageUrlExtractionResult) : M ImageLocals :=
  match image_url ex with
  | Some url =>
      if found ex && Py.truthy url then
        dl <~ lift (downloaded env);;
        if success dl && Py.truthy_opt (image_path dl) then
          image_filename <~ lift (url_to_filename hc url None);;
          size <~ lift (image_stat env);;
          ret (mkLocals true (Some image_filename) (Some size) "success")
        else
          unless (add_to_image_queue_fault rf) (add_to_image_queue url npc_name npc_url);;;
          ret (mkLocals false None None "found")
      else ret (mkLocals false None None "not_found")
  | None => ret (mkLocals false None None "not_found")
  end.

(** the body of the [try] of [crawl_npc_page] *)
Definition crawl_npc_page_try_under (rf : RedisFaults) (env : PageEnv)
    (npc_url npc_name : string) : M CrawlNPCResult :=
  html <~ lift (fetched env);;
  file <~ lift (saved env);;
  let '(filepath, html_file_size) := file in
  ex <~ lift (extracted env);;
  loc <~ image_branch_under rf env npc_url npc_name ex;;
  add_crawled_page (db_fault env)
    (success_fields npc_url npc_name filepath html_file_size ex loc);;;
  unless (mark_visited_fault rf) (mark_visited npc_url);;;
  ret (mkCrawlNPCResult true (l_has_image loc) None).

(** [crawl_npc_page(npc_url)] *)
Definition crawl_npc_page_under (rf : RedisFaults) (env : PageEnv) (npc_url : string)
    : M CrawlNPCResult :=
  npc_name <~ lift (extract_npc_name_from_url hc unquote npc_url);;
  filename <~ lift (url_to_filename hc npc_url (Some "html"));;
  try_except
    (crawl_npc_page_try_under rf env npc_url npc_name)
    (fun fe =>
       add_crawled_page (db_fault env) (failed_fields npc_url npc_name filename);;;
       unless (mark_failed_fault rf) (mark_failed npc_url (str fe));;;
       ret (mkCrawlNPCResult false false (Some (str fe))))
    (fun e =>
       unless (mark_failed_fault rf) (mark_failed npc_url (str e));;;
       ret (mkCrawlNPCResult false false (Some (str e)))).

(** [max_npcs and total_npcs_crawled >= max_npcs] *)
Definition limit_reached (max_npcs : option Z) (total_npcs_crawled : Z) : bool :=
  match max_npcs with
  | Some m => negb (m =? 0) && (m <=? total_npcs_crawled)
  | None => false
  end.

(** one more page in the running totals of [crawl_all_npcs] *)
Definition count (acc : CrawlAllNPCsResult) (r : CrawlNPCResult) : CrawlAllNPCsResult :=
  mkCrawlAll
    (total_npcs_crawled acc + 1)
    (if image_success r then total_images_downloaded acc + 1 else total_images_downloaded acc)
    (if image_success r then total_image_failures acc else total_image_failures acc + 1)
    (if html_success r then total_successful acc + 1 else total_successful acc)
    (if html_success r then total_failed acc else total_failed acc + 1).

(** one page in front of the pages the rest of the loop crawls *)
Definition and_then {A} (page : string * CrawlNPCResult)
    (rest : option (list (string * CrawlNPCResult) * A))
    : option (list (string * CrawlNPCResult) * A) :=
  match rest with
  | Some (pages, a) => Some (page :: pages, a)
  | None => None
  end.

(** The [while True] loop of [crawl_all_npcs].  Iteration [i] pops with the
    server's choice [picks i] and crawls in the environment [envs i].
    The result lists, in order, the URLs on which [crawl_npc_page] was
    called and returned, each with the result it returned, then the world
    and the outcome.  [None] means that [fuel] iterations did not reach a
    [break]. *)
Fixpoint crawl_all_loop (fuel : nat) (max_npcs : option Z)
    (envs : nat -> PageEnv) (picks : nat -> nat) (i : nat)
    (acc : CrawlAllNPCsResult) (w : World)
    : option (list (string * CrawlNPCResult) * (World * result CrawlAllNPCsResult)) :=
  match fuel with
  | O => None
  | S fuel' =>
      if limit_reached max_npcs (total_npcs_crawled acc) then Some ([], (w, Ok acc))
      else
        let '(npc_url, r) := URLManager.get_next_url (picks i) (redis w) in
        let w1 := mkWorld r (db w) in
        match npc_url with
        | None => Some ([], (w1, Ok acc))
        | Some url =>
            if negb (Py.truthy url) then Some ([], (w1, Ok acc))
            else
              match crawl_npc_page (envs i) url w1 with
              | (w2, Raise e) => Some ([], (w2, Raise e))
              | (w2, Ok result) =>
                  and_then (url, result)
                    (crawl_all_loop fuel' max_npcs envs picks (S i) (count acc result) w2)
              end
        end
  end.

(** [crawl_all_npcs(max_npcs)]: every iteration pops one URL and none is
    added, so one more iteration than there are pending URLs is enough. *)
Definition crawl_all_npcs (max_npcs : option Z) (envs : nat -> PageEnv)
    (picks : nat -> nat) (w : World)
    : option (list (string * CrawlNPCResult) * (World * result CrawlAllNPCsResult)) :=
  crawl_all_loop (S (size (URLManager.crawl_queue (redis w)))) max_npcs envs picks 0%nat
                 (mkCrawlAll 0 0 0 0 0) w.

End Spider.

End Crawler.

(** ** Properties stated by the specification *)

(** [f] occurs in [s] as a contiguous run of characters *)
Definition occurs_in (f s : string) : Prop :=
  exists a b : string, s = a +:+ f +:+ b.

(** a file name holds no path, query or fragment delimiter *)
Definition plain_name (f : string) : Prop :=
  Py.contains "/" f = false /\ Py.contains "?" f = false /\ Py.contains "#" f = false.

(** [path.split("/")[-1]] *)
Definition last_component (path : string) : string :=
  List.last (Py.split "/" path) EmptyString.

(** The file name as the specification words it: the last path component
    of the URL, with the extension appended when there is one. *)
Definition spec_url_to_filename (hc : Urllib.HostChecks) (url : string)
    (extension : option string) : result string :=
  path ← urlparse_path hc url;
  match extension with
  | None => Ok (last_component path)
  | Some ext => Ok (last_component path +:+ "." +:+ ext)
  end.

(** The delay window as the specification words it: from the configured
    rate limit delay up to that delay plus [n]. *)
Definition spec_delay_window (rate_limit n d : Z) : Prop :=
  rate_limit <= d <= rate_limit + n.

(** The delay window of the source: [randint(rate_limit - 1, rate_limit + 3)]. *)
Definition delay_window (rate_limit d : Z) : Prop :=
  rate_limit - 1 <= d <= rate_limit + 3.

(** the call returns a value *)
Definition returns {A} (r : result A) : Prop := exists a, r = Ok a.

(** the row carries what the call of [add_crawled_page] always writes,
    and every image field whose new value is a non-empty string *)
Definition carries (a : Sql.PageFields) (p : Sql.CrawledPage) : Prop :=
  Sql.url p = Sql.f_url a /\
  Sql.npc_name p = Sql.f_npc_name a /\
  Sql.content p = Sql.f_html_filename a /\
  Sql.status p = Sql.f_status a /\
  Sql.html_file_size p = Sql.f_html_file_size a /\
  Sql.image_size p = Sql.f_image_size a /\
  Sql.has_image p = Sql.f_has_image a /\
  (Py.truthy_opt (Sql.f_image_url a) = true -> Sql.image_url p = Sql.f_image_url a) /\
  (Py.truthy_opt (Sql.f_image_filename a) = true ->
     Sql.image_filename p = Sql.f_image_filename a) /\
  (Py.truthy_opt (Sql.f_image_status a) = true ->
     Sql.image_status p = Sql.f_image_status a).

(** every image field whose new value is null or empty has the value it
    had before the call: [u], [f] and [st] *)
Definition keeps_image (a : Sql.PageFields) (u f st : option string)
    (p : Sql.CrawledPage) : Prop :=
  (Py.truthy_opt (Sql.f_image_url a) = false -> Sql.image_url p = u) /\
  (Py.truthy_opt (Sql.f_image_filename a) = false -> Sql.image_filename p = f) /\
  (Py.truthy_opt (Sql.f_image_status a) = false -> Sql.image_status p = st).

(** the invariant of a page record: an image is claimed only with the
    status ["success"] and a file name *)
Definition image_invariant (p : Sql.CrawledPage) : Prop :=
  Sql.has_image p = true ->
  Sql.image_status p = Some "success" /\ is_Some (Sql.image_filename p).

(** the totals of [crawl_all_npcs] add up *)
Definition balanced (s : Crawler.CrawlAllNPCsResult) : Prop :=
  Crawler.total_npcs_crawled s = Crawler.total_successful s + Crawler.total_failed s /\
  Crawler.total_images_downloaded s + Crawler.total_image_failures s
    = Crawler.total_npcs_crawled s.

(** how many of the crawled pages have a result satisfying [p] *)
Definition pages_with (p : Crawler.CrawlNPCResult -> bool)
    (pages : list (string * Crawler.CrawlNPCResult)) : Z :=
  Z.of_nat (length (List.filter (fun page => p (snd page)) pages)).

(** the statistics count the crawled pages: each page once in the total,
    once as successful or failed, once as image downloaded or image
    failure *)
Definition tallies (pages : list (string * Crawler.CrawlNPCResult))
    (s : Crawler.CrawlAllNPCsResult) : Prop :=
  Crawler.total_npcs_crawled s = Z.of_nat (length pages) /\
  Crawler.total_successful s = pages_with Crawler.html_success pages /\
  Crawler.total_failed s = pages_with (fun r => negb (Crawler.html_success r)) pages /\
  Crawler.total_images_downloaded s = pages_with Crawler.image_success pages /\
  Crawler.total_image_failures s
    = pages_with (fun r => negb (Crawler.image_success r)) pages.

(** ** Concrete inputs

    The inputs of the tests of the repository and of the examples
    evaluated below. *)

(** The 404 endpoint of [tests/test_fetcher.py]: [retries=1]. *)
Definition fetcher_404 : Fetcher.URLFetcher := Fetcher.mkFetcher 10 1 0.
Definition network_404 : Fetcher.Network :=
  Fetcher.mkNetwork (fun _ => 0) (fun _ => Fetcher.Responded 404 EmptyString).

Definition wiki_base_url : string := "https://oldschool.runescape.wiki".

Definition hans_url : string := "https://oldschool.runescape.wiki/w/Hans".
Definition hans_image : string := "https://oldschool.runescape.wiki/images/Hans.png".

Definition no_escapes (s : string) : string := s.
Definition ticking_clock (k : nat) : Z := Z.of_nat k.

Definition hans_fields : Sql.PageFields :=
  Sql.default_fields hans_url "Hans" "data/raw_html/Hans.html".

(** a clock that reads the same instant at every call *)
Definition stopped_clock (k : nat) : Z := 1762000000.

(** Hans crawled with his image, and crawled again by a call whose image
    URL is the empty string *)
Definition hans_image_fields : Sql.PageFields :=
  Sql.mkFields hans_url "Hans" "data/raw_html/Hans.html" true (Some hans_image)
    (Some "Hans.png") (Some "success") 2048 "success" 120.

Definition hans_empty_image_fields : Sql.PageFields :=
  Sql.mkFields hans_url "Hans" "data/raw_html/Hans.html" false (Some EmptyString)
    None None 0 "success" 120.

Definition fresh_world : Crawler.World :=
  Crawler.mkWorld URLManager.empty (Sql.mkDatabase [] 0).

(** the page is fetched and saved, an image is found, its download fails *)
Definition env_image_download_fails : Crawler.PageEnv :=
  Crawler.mkPageEnv
    (Ok "<html><body>Hans</body></html>")
    (Ok ("data/raw_html/Hans.html", 30))
    (Ok (Crawler.mkExtraction (Some hans_image) true))
    (Ok (Crawler.mkDownload false None (Some "ReadTimeout")))
    (Raise (IOError "no such file"))
    None.

(** the fetch raises [FetchError] *)
Definition env_fetch_error : Crawler.PageEnv :=
  Crawler.mkPageEnv
    (Raise (FetchError "HTTP error: 404"))
    (Raise (IOError "not reached"))
    (Raise (Exception "not reached"))
    (Raise (Exception "not reached"))
    (Raise (IOError "not reached"))
    None.

(** the page is fetched, saving it raises [IOError] *)
Definition env_save_fails : Crawler.PageEnv :=
  Crawler.mkPageEnv
    (Ok "<html><body>Hans</body></html>")
    (Raise (IOError "Failed to save HTML: disk full"))
    (Raise (Exception "not reached"))
    (Raise (Exception "not reached"))
    (Raise (IOError "not reached"))
    None.

(** the page is fetched and saved, and holds no image *)
Definition env_no_image : Crawler.PageEnv :=
  Crawler.mkPageEnv
    (Ok "<html><body>Hans</body></html>")
    (Ok ("data/raw_html/Hans.html", 30))
    (Ok (Crawler.mkExtraction None false))
    (Raise (Exception "not reached"))
    (Raise (IOError "not reached"))
    None.

(** Redis stops answering when the page is to be marked visited, and
    answers again afterwards *)
Definition redis_lost_at_mark_visited : Crawler.RedisFaults :=
  Crawler.mkRedisFaults None
    (Some (Crawler.mkRedisFault (Exception "Connection closed by server.") false)) None.

(** A category page with two containers and a pagination anchor. *)
Definition category_page_html : string :=
  "<div class='mw-category'><ul><li><a href='/w/Category:Banker'>Banker</a></li></ul></div><div class='mw-category mw-category-columns'><ul><li><a href='/w/1337mage43'>1337mage43</a></li><li><a href='/w/50%25_Luke'>50% Luke</a></li></ul></div><a href='/w/Category:Non-player_characters?pagefrom=A'>next page</a>".

(** the tree of [category_page_html] *)
Definition category_page : list Bs4.node :=
  [ Bs4.Tag "div" (Some ["mw-category"]) []
      [ Bs4.Tag "ul" None []
          [ Bs4.Tag "li" None []
              [ Bs4.Tag "a" None [("href", "/w/Category:Banker")]
                  [ Bs4.NavigableString "Banker" ] ] ] ];
    Bs4.Tag "div" (Some ["mw-category"; "mw-category-columns"]) []
      [ Bs4.Tag "ul" None []
          [ Bs4.Tag "li" None []
              [ Bs4.Tag "a" None [("href", "/w/1337mage43")]
                  [ Bs4.NavigableString "1337mage43" ] ];
            Bs4.Tag "li" None []
              [ Bs4.Tag "a" None [("href", "/w/50%25_Luke")]
                  [ Bs4.NavigableString "50% Luke" ] ] ] ];
    Bs4.Tag "a" None [("href", "/w/Category:Non-player_characters?pagefrom=A")]
      [ Bs4.NavigableString "next page" ] ].

(** A category page whose only link opens a bracketed host that it never
    closes. *)
Definition bracket_page_html : string :=
  "<div class='mw-category'><ul><li><a href='http://[x'>x</a></li></ul></div>".

(** the tree of [bracket_page_html] *)
Definition bracket_page : list Bs4.node :=
  [ Bs4.Tag "div" (Some ["mw-category"]) []
      [ Bs4.Tag "ul" None []
          [ Bs4.Tag "li" None []
              [ Bs4.Tag "a" None [("href", "http://[x")]
                  [ Bs4.NavigableString "x" ] ] ] ] ].

(** markup that [html.parser] rejects *)
Definition marked_section_html : string := "<![foo bar]>".

(** the HTML parser on the pages above *)
Definition parse_fixture (html : string) : result (list Bs4.node) :=
  if String.eqb html category_page_html then Ok category_page
  else if String.eqb html bracket_page_html then Ok bracket_page
  else if String.eqb html marked_section_html
  then Raise (Exception "AssertionError: unknown status keyword 'foo ' in marked section")
  else Ok [].

(** the page is fetched and saved, an image is found and downloaded *)
Definition env_image_downloaded : Crawler.PageEnv :=
  Crawler.mkPageEnv
    (Ok "<html><body>Hans</body></html>")
    (Ok ("data/raw_html/Hans.html", 30))
    (Ok (Crawler.mkExtraction (Some hans_image) true))
    (Ok (Crawler.mkDownload true (Some "data/images/Hans.png") None))
    (Ok 2048)
    None.

(** two pending pages: the first one popped is crawled with its image, the
    fetch of the second one fails *)
Definition two_pending : Crawler.World :=
  Crawler.mkWorld
    (URLManager.mkRedis {[hans_url; "https://oldschool.runescape.wiki/w/Bob"]} ∅ ∅ ∅)
    (Sql.mkDatabase [] 0).

Definition envs_one_image_one_failure (i : nat) : Crawler.PageEnv :=
  match i with
  | O => env_image_downloaded
  | S _ => env_fetch_error
  end.

(** ** More of the code: the frontier seen by its callers *)

(** The loop of [crawl_npc_list] over the links of one list page:
    [added = self.url_manager.add_to_queue(npc_url)] and
    [if added: total_queued += 1]. *)
Fixpoint enqueue_each (urls : list string) (total_queued : Z) (r : URLManager.Redis)
    : Z * URLManager.Redis :=
  match urls with
  | [] => (total_queued, r)
  | url :: rest =>
      let '(added, r') := URLManager.add_to_queue url r in
      enqueue_each rest (if added then total_queued + 1 else total_queued) r'
  end.

(** [n] successive calls of [get_next_url]; call [i + k] is served with
    the choice [picks (i + k)] *)
Fixpoint dequeue_many (picks : nat -> nat) (i n : nat) (r : URLManager.Redis)
    : list (option string) * URLManager.Redis :=
  match n with
  | O => ([], r)
  | S n' =>
      let '(url, r1) := URLManager.get_next_url (picks i) r in
      let '(urls, r2) := dequeue_many picks (S i) n' r1 in
      (url :: urls, r2)
  end.

(** [QueueStats] of [scraper_models.py] *)
Record QueueStats : Type := mkQueueStats {
  total_urls_queued : Z;
  total_urls_visited : Z;
  total_urls_failed : Z
}.

(** [URLManager.get_stats] *)
Definition get_stats (r : URLManager.Redis) : QueueStats :=
  mkQueueStats (URLManager.get_queue_size r) (URLManager.get_visited_count r)
               (URLManager.get_failed_count r).

(** the URLs of a list that are not visited *)
Definition unvisited (urls : list string) (r : URLManager.Redis) : gset string :=
  list_to_set (List.filter (fun url => negb (URLManager.is_visited url r)) urls).

(** ** More of the code: [unquote], the other CRUD operations *)

(** [urllib.parse.unquote(string)]: a text without ['%'] is returned as it
    is ([if '%' not in string: return string]); otherwise the percent
    escapes are replaced and the bytes read as UTF-8, which the parameter
    [decode_escapes] stands for. *)
Definition unquote (decode_escapes : string -> string) (s : string) : string :=
  if Py.contains "%" s then decode_escapes s else s.

Module Crud.

(** the row that [first_by_url] returns, deleted from the table *)
Fixpoint delete_first (u : string) (rows : list Sql.CrawledPage) : list Sql.CrawledPage :=
  match rows with
  | [] => []
  | p :: rest =>
      if String.eqb (Sql.url p) u then rest
      else p :: delete_first u rest
  end.

(** the body of [delete_crawled_page]: [session.delete] of the first row
    with this URL, nothing when there is none *)
Definition delete_crawled_page_body (u : string) (db : Sql.Database) : Sql.Database :=
  match Sql.first_by_url u (Sql.crawled_pages db) with
  | Some _ => Sql.mkDatabase (delete_first u (Sql.crawled_pages db)) (Sql.clock_reads db)
  | None => db
  end.

(** [SQLiteCRUDManager.delete_crawled_page] *)
Definition delete_crawled_page (fault : option exn) (u : string) (db : Sql.Database)
    : result unit * Sql.Database :=
  Sql.get_session fault (delete_crawled_page_body u) db.

(** [SQLiteCRUDManager.get_crawled_pages_by_status]: the instances of
    [session.query(CrawledPage).filter_by(status=status).all()], one per
    matching row, returned through the closing session and so detached *)
Definition get_crawled_pages_by_status (s : string) (db : Sql.Database)
    : list Sql.DetachedInstance :=
  List.map (fun _ => Sql.Detached)
    (List.filter (fun p => String.eqb (Sql.status p) s) (Sql.crawled_pages db)).

(** [SQLiteCRUDManager.get_crawled_pages_by_npc_name]: the matching rows,
    each copied field by field into a new [CrawledPage] *)
Definition get_crawled_pages_by_npc_name (name : string) (db : Sql.Database)
    : list Sql.CrawledPage :=
  List.map
    (fun page =>
       Sql.mkPage (Sql.id page) (Sql.url page) (Sql.content page) (Sql.npc_name page)
         (Sql.has_image page) (Sql.image_url page) (Sql.image_filename page)
         (Sql.image_status page) (Sql.image_size page) (Sql.status page)
         (Sql.html_file_size page) (Sql.crawled_at page) (Sql.updated_at page))
    (List.filter (fun p => String.eqb (Sql.npc_name p) name) (Sql.crawled_pages db)).

End Crud.

(** a table of two rows: Hans crawled with success, Bob failed *)
Definition bob_url : string := "https://oldschool.runescape.wiki/w/Bob".

Definition bob_failed_fields : Sql.PageFields :=
  Sql.mkFields bob_url "Bob" "Bob.html" false None None None 0 "failed" 0.

Definition two_pages_db : Sql.Database :=
  (Sql.add_crawled_page ticking_clock None bob_failed_fields
     (Sql.add_crawled_page ticking_clock None hans_fields (Sql.mkDatabase [] 0)).2).2.

(** ** Facts about the string primitives *)

Section StringFacts.

Lemma append_nil_r (s : string) : s +:+ "" = s.
Proof.
  induction s as [|a s IH]; [reflexivity|].
  change (String a (s +:+ "") = String a s). by rewrite IH.
Qed.

Lemma append_assoc (a b c : string) : (a +:+ b) +:+ c = a +:+ (b +:+ c).
Proof.
  induction a as [|x a IH]; [reflexivity|].
  change (String x ((a +:+ b) +:+ c) = String x (a +:+ (b +:+ c))). by rewrite IH.
Qed.

Lemma contains_append (c : ascii) (a b : string) :
  Py.contains c (a +:+ b) = Py.contains c a || Py.contains c b.
Proof.
  induction a as [|x a IH]; [reflexivity|].
  change (Ascii.eqb x c || Py.contains c (a +:+ b)
          = Ascii.eqb x c || Py.contains c a || Py.contains c b).
  rewrite IH. by destruct (Ascii.eqb x c).
Qed.

Lemma occurs_in_refl (s : string) : occurs_in s s.
Proof. exists "", "". by rewrite append_nil_r. Qed.

Lemma occurs_in_trans (f g s : string) :
  occurs_in f g -> occurs_in g s -> occurs_in f s.
Proof.
  intros (a & b & ->) (a' & b' & ->).
  exists (a' +:+ a), (b +:+ b'). by rewrite !append_assoc.
Qed.

Lemma occurs_in_prefix (f t : string) : occurs_in f (f +:+ t).
Proof. by exists "", t. Qed.

Lemma occurs_in_suffix (h f : string) : occurs_in f (h +:+ f).
Proof. exists h, "". by rewrite append_nil_r. Qed.

Lemma occurs_in_contains (c : ascii) (f s : string) :
  occurs_in f s -> Py.contains c s = false -> Py.contains c f = false.
Proof.
  intros (a & b & ->). rewrite !contains_append.
  destruct (Py.contains c a), (Py.contains c f); simpl; congruence.
Qed.

Lemma cut_spec (sep : ascii) (s h : string) (t : option string) :
  Py.cut sep s = (h, t) ->
  Py.contains sep h = false /\
  match t with
  | Some t' => s = h +:+ String sep t'
  | None => s = h /\ Py.contains sep s = false
  end.
Proof.
  revert h t. induction s as [|a s IH]; intros h t; simpl.
  - intros [= <- <-]. auto.
  - destruct (Ascii.eqb_spec a sep) as [->|Hne].
    + intros [= <- <-]. auto.
    + destruct (Py.cut sep s) as [h' t'] eqn:E. intros [= <- <-].
      destruct (IH _ _ eq_refl) as [Hh Ht]. simpl.
      assert (Ascii.eqb a sep = false) as -> by by apply Ascii.eqb_neq.
      split; [done|]. destruct t' as [t'|].
      * by rewrite Ht.
      * destruct Ht as [-> ->]. done.
Qed.

Lemma cut_absent (sep : ascii) (s : string) :
  Py.contains sep s = false -> Py.cut sep s = (s, None).
Proof.
  induction s as [|a s IH]; simpl; [done|].
  destruct (Ascii.eqb a sep); simpl; [done|]. intros H. by rewrite IH.
Qed.

Lemma cut_fst_prefix (sep : ascii) (s : string) :
  exists t, s = fst (Py.cut sep s) +:+ t.
Proof.
  destruct (Py.cut sep s) as [h t] eqn:E. apply cut_spec in E as [_ E].
  destruct t as [t|]; simpl.
  - by exists (String sep t).
  - destruct E as [-> _]. exists "". by rewrite append_nil_r.
Qed.

Lemma hd_split (sep : ascii) (s : string) :
  List.hd "" (Py.split sep s) = fst (Py.cut sep s).
Proof.
  induction s as [|a s IH]; simpl; [done|].
  destruct (Ascii.eqb a sep); [done|].
  destruct (Py.cut sep s) as [h t]. simpl in IH.
  destruct (Py.split sep s) as [|x l]; simpl in *; by subst.
Qed.

Lemma split_nonempty (sep : ascii) (s : string) : Py.split sep s <> [].
Proof.
  destruct s as [|a s]; simpl; [done|].
  destruct (Ascii.eqb a sep); [done|]. by destruct (Py.split sep s).
Qed.

Lemma rcut_spec (sep : ascii) (s h t : string) :
  Py.rcut sep s = (h, t) ->
  s = h +:+ t /\ Py.contains sep t = false /\
  (Py.truthy h = false -> Py.contains sep s = false).
Proof.
  revert h t. induction s as [|a s IH]; intros h t; simpl.
  - intros [= <- <-]. auto.
  - destruct (Py.rcut sep s) as [h' t'] eqn:E.
    destruct (IH _ _ eq_refl) as (Hs & Ht & Hh).
    destruct (Py.truthy h') eqn:Hh'.
    + intros [= <- <-]. split; [by rewrite Hs|]. split; [done|]. done.
    + destruct h'; [|done]. change (s = t') in Hs. subst s.
      destruct (Ascii.eqb a sep) eqn:Ha; intros [= <- <-].
      * auto.
      * simpl. rewrite Ha. auto.
Qed.

Lemma split_rcut (sep : ascii) (s : string) :
  List.last (Py.split sep s) "" = snd (Py.rcut sep s) /\
  (Py.truthy (fst (Py.rcut sep s)) = false <-> exists x, Py.split sep s = [x]).
Proof.
  induction s as [|a s [IHl IHs]]; simpl.
  - split; [done|]. split; eauto.
  - pose proof (split_nonempty sep s) as Hne.
    destruct (Py.rcut sep s) as [h t]. simpl in IHl, IHs.
    destruct (Py.split sep s) as [|x l]; [done|].
    destruct (Ascii.eqb a sep).
    + split.
      * change (List.last (x :: l) "" = snd (if Py.truthy h then (String a h, t) else (String a "", t))).
        rewrite IHl. by destruct (Py.truthy h).
      * destruct (Py.truthy h); simpl; split; try done; by intros [? [=]].
    + destruct (Py.truthy h) eqn:Hh; simpl.
      * destruct l as [|y l].
        { destruct IHs as [_ IHs]. discriminate IHs. eauto. }
        split; [exact IHl|]. split; [done|]. by intros [? [=]].
      * destruct IHs as [IHs _]. destruct (IHs eq_refl) as [x' [= -> ->]].
        simpl in IHl. subst t. split; [done|]. split; eauto.
Qed.

Lemma last_split (sep : ascii) (s : string) :
  List.last (Py.split sep s) "" = snd (Py.rcut sep s).
Proof. apply split_rcut. Qed.

Lemma last_split_suffix (sep : ascii) (s : string) :
  exists h, s = h +:+ List.last (Py.split sep s) "" /\
            Py.contains sep (List.last (Py.split sep s) "") = false.
Proof.
  rewrite last_split. destruct (Py.rcut sep s) as [h t] eqn:E.
  apply rcut_spec in E as (Hs & Ht & _). by exists h.
Qed.

Lemma span_suffix (p : ascii -> bool) (s : string) :
  s = fst (Py.span p s) +:+ snd (Py.span p s).
Proof.
  induction s as [|a s IH]; simpl; [done|].
  destruct (p a); [|done]. destruct (Py.span p s) as [h t]. simpl in *.
  change (String a s = String a (h +:+ t)). by rewrite <- IH.
Qed.

End StringFacts.

(** ** Facts about [urllib.parse] *)

Section UrlFacts.

Context (hc : Urllib.HostChecks).

Lemma split_scheme_suffix (sch url sch' url' : string) :
  Urllib.split_scheme sch url = (sch', url') -> exists h, url = h +:+ url'.
Proof.
  unfold Urllib.split_scheme.
  destruct (Py.cut ":" url) as [pre rest] eqn:E.
  apply cut_spec in E as [_ E].
  destruct pre as [|a pre]; [|destruct rest as [rest|]];
    try (intros [= <- <-]; by exists "").
  destruct (_ && _); intros [= <- <-]; [|by exists ""].
  by exists (String a pre +:+ ":"); rewrite append_assoc.
Qed.

Lemma splitnetloc_suffix (url n rest : string) :
  Urllib.splitnetloc url = Some (n, rest) -> exists h, url = h +:+ rest.
Proof.
  unfold Urllib.splitnetloc.
  destruct url as [|a [|b url]]; try done.
  destruct (Ascii.eqb_spec a "/") as [->|?]; [|done].
  destruct (Ascii.eqb_spec b "/") as [->|?]; [|done].
  intros [= E]. pose proof (span_suffix (fun a => negb (Urllib.netloc_delim a)) url) as Hs.
  rewrite E in Hs. simpl in Hs. exists ("//" +:+ n).
  rewrite append_assoc. by rewrite Hs.
Qed.

Lemma split_authority_suffix (url n rest : string) :
  Urllib.split_authority hc url = Ok (n, rest) -> exists h, url = h +:+ rest.
Proof.
  unfold Urllib.split_authority.
  destruct (Urllib.splitnetloc url) as [[n' rest']|] eqn:En.
  - apply splitnetloc_suffix in En.
    destruct (Urllib.check_brackets hc n'); simpl; [|done]. by intros [= <- <-].
  - intros [= <- <-]. by exists "".
Qed.

(** The path [urlsplit] reports is a run of characters of the sanitised
    URL and holds neither ['?'] nor ['#']. *)
Lemma urlsplit_path (url sch : string) (sr : Urllib.SplitResult) :
  Urllib.urlsplit hc url sch = Ok sr ->
  occurs_in (Urllib.s_path sr) (Urllib.sanitise url) /\
  Py.contains "#" (Urllib.s_path sr) = false /\
  Py.contains "?" (Urllib.s_path sr) = false.
Proof.
  unfold Urllib.urlsplit.
  destruct (Urllib.split_scheme _ _) as [sch1 u1] eqn:E1.
  apply split_scheme_suffix in E1 as [h1 E1].
  destruct (Urllib.split_authority hc u1) as [[n u2]|e] eqn:En; simpl; [|done].
  apply split_authority_suffix in En as [h2 E2].
  destruct (Py.cut "#" u2) as [u3 frag] eqn:E3.
  destruct (Py.cut "?" u3) as [u4 qry] eqn:E4.
  destruct (Urllib.checknetloc hc n); simpl; [|done].
  intros [= <-]. simpl.
  pose proof (cut_fst_prefix "#" u2) as [t3 H3]. rewrite E3 in H3. simpl in H3.
  pose proof (cut_fst_prefix "?" u3) as [t4 H4]. rewrite E4 in H4. simpl in H4.
  apply cut_spec in E3 as [E3 _]. apply cut_spec in E4 as [E4 _].
  split; [|split; [|done]].
  - unfold Urllib.sanitise in *. rewrite E1, E2, H3, H4.
    exists (h1 +:+ h2), (t4 +:+ t3). by rewrite !append_assoc.
  - eapply occurs_in_contains; [|exact E3]. rewrite H4. apply occurs_in_prefix.
Qed.

Lemma splitparams_prefix (p : string) :
  exists t, p = fst (Urllib.splitparams p) +:+ t.
Proof.
  unfold Urllib.splitparams.
  destruct (Py.rcut "/" p) as [dir seg] eqn:E.
  apply rcut_spec in E as (Hp & _).
  destruct (Py.cut ";" seg) as [a b] eqn:Ec. apply cut_spec in Ec as [_ Ec].
  destruct b as [b|]; simpl.
  - exists (String ";" b). by rewrite append_assoc, <- Ec.
  - exists "". by rewrite append_nil_r.
Qed.

Lemma urlparse_path_facts (url p : string) :
  urlparse_path hc url = Ok p ->
  occurs_in p (Urllib.sanitise url) /\
  Py.contains "#" p = false /\ Py.contains "?" p = false.
Proof.
  unfold urlparse_path, Urllib.urlparse.
  destruct (Urllib.urlsplit hc url "") as [sr|e] eqn:E; simpl; [|done].
  apply urlsplit_path in E as (Hocc & Hf & Hq).
  destruct (_ && _).
  - destruct (splitparams_prefix (Urllib.s_path sr)) as [t Ht].
    destruct (Urllib.splitparams (Urllib.s_path sr)) as [p' prm]. simpl in *.
    intros [= <-].
    assert (occurs_in p' (Urllib.s_path sr)) as Hp by (rewrite Ht; apply occurs_in_prefix).
    split; [by eapply occurs_in_trans|]. split; by eapply occurs_in_contains.
  - by intros [= <-].
Qed.

End UrlFacts.

(** ** [url_to_filename] *)

Section FilenameFacts.

Context (hc : Urllib.HostChecks).

Lemma last_component_plain (p : string) :
  Py.contains "#" p = false -> Py.contains "?" p = false ->
  occurs_in (last_component p) p /\ plain_name (last_component p).
Proof.
  intros Hf Hq. unfold last_component.
  destruct (last_split_suffix "/" p) as (h & Hp & Hs).
  assert (occurs_in (List.last (Py.split "/" p) "") p) as Hocc.
  { rewrite Hp at 2. apply occurs_in_suffix. }
  split; [done|]. repeat split; [done|by eapply occurs_in_contains..].
Qed.

(** C7 (as amended): whenever [urlparse] accepts the URL, the file name is
    the last component of the path it reports, or ["unnamed"] when that
    component is empty; with [extension=None] this is the whole result, and
    with an extension ["." + extension] is appended (["html"] by default).
    The name holds no ['/'], ['?'] or ['#'] (query and fragment are gone)
    and a non-empty component is copied from the URL character by character,
    so percent escapes are kept as they are. *)
Theorem url_to_filename_last_component (url p : string) :
  urlparse_path hc url = Ok p ->
  let name := if Py.truthy (last_component p) then last_component p else "unnamed" in
  url_to_filename hc url None = Ok name /\
  (forall ext, url_to_filename hc url (Some ext) = Ok (name +:+ "." +:+ ext)) /\
  plain_name name /\
  (Py.truthy (last_component p) = true -> occurs_in name (Urllib.sanitise url)).
Proof.
  intros Hp name.
  destruct (urlparse_path_facts hc url p Hp) as (Hocc & Hf & Hq).
  destruct (last_component_plain p Hf Hq) as (Hseg & Hplain).
  assert (List.hd "" (Py.split "#" (last_component p)) = last_component p) as Hhd.
  { rewrite hd_split, cut_absent; [done|]. apply Hplain. }
  assert (forall ext, url_to_filename hc url ext
            = match ext with
              | None => Ok name
              | Some e => Ok (name +:+ "." +:+ e)
              end) as Hrun.
  { intros ext. unfold url_to_filename. rewrite Hp. simpl.
    fold (last_component p). rewrite Hhd. subst name.
    by destruct (Py.truthy (last_component p)), ext. }
  split; [apply (Hrun None)|]. split; [intros ext; apply (Hrun (Some ext))|].
  subst name. destruct (Py.truthy (last_component p)) eqn:Ht.
  - split; [done|]. intros _. by eapply occurs_in_trans.
  - split; [by vm_compute|done].
Qed.

End FilenameFacts.

Lemma url_to_filename_last_component_witness :
  url_to_filename accept_all_hosts "https://oldschool.runescape.wiki/w/50%25_Luke" None
    = Ok "50%25_Luke" /\
  url_to_filename accept_all_hosts "https://oldschool.runescape.wiki/w/50%25_Luke" (Some "html")
    = Ok "50%25_Luke.html" /\
  url_to_filename accept_all_hosts "https://oldschool.runescape.wiki/images/50%25_Luke.png" None
    = Ok "50%25_Luke.png".
Proof.
  pose proof (url_to_filename_last_component accept_all_hosts
                "https://oldschool.runescape.wiki/w/50%25_Luke" "/w/50%25_Luke"
                ltac:(vm_compute; reflexivity)) as (H1 & H2 & _).
  pose proof (url_to_filename_last_component accept_all_hosts
                "https://oldschool.runescape.wiki/images/50%25_Luke.png"
                "/images/50%25_Luke.png" ltac:(vm_compute; reflexivity)) as (H3 & _).
  split; [exact H1|]. split; [exact (H2 "html")|exact H3].
Defined.

(** C7, the claim as worded fails: on a URL whose path ends in ['/'] the
    last path component is empty, the specification's reading gives
    [".html"], and the code returns ["unnamed.html"]. *)
Lemma url_to_filename_unnamed_counterexample :
  urlparse_path accept_all_hosts "https://oldschool.runescape.wiki/w/" = Ok "/w/" /\
  spec_url_to_filename accept_all_hosts "https://oldschool.runescape.wiki/w/" (Some "html")
    = Ok ".html" /\
  url_to_filename accept_all_hosts "https://oldschool.runescape.wiki/w/" (Some "html")
    = Ok "unnamed.html" /\
  url_to_filename accept_all_hosts "https://oldschool.runescape.wiki/w/" (Some "html")
    <> spec_url_to_filename accept_all_hosts "https://oldschool.runescape.wiki/w/" (Some "html").
Proof. repeat split; try (vm_compute; reflexivity). vm_compute. discriminate. Qed.

(** ** [fetch_page] *)

Section FetcherFacts.

Import Fetcher.

Context (self : URLFetcher) (net : Network).

Lemma randint_range (a b r : Z) : a <= b -> a <= randint a b r <= b.
Proof.
  intros Hab. unfold randint.
  pose proof (Z.mod_pos_bound r (b - a + 1) ltac:(lia)). lia.
Qed.

Lemma attempts_after (a : Z) (k : nat) (r : list event * result Response) :
  attempts (fst (after_events (sleep_and_get self net a k) r)) = S (attempts (fst r)).
Proof. reflexivity. Qed.

Lemma fetch_loop_retry (n : nat) (attempt : Z) (k : nat) (response : option Response) :
  retriable (replies net k) = true ->
  (attempt =? retries self) = false ->
  exists response',
    fetch_loop self net (S n) attempt k response
    = after_events (sleep_and_get self net attempt k)
        (fetch_loop self net n (attempt + 1) (S k) response').
Proof.
  intros Hk Hnot. cbn [fetch_loop]. fold (sleep_and_get self net attempt k).
  destruct (replies net k) as [code body| | |]; simpl in Hk; try done; rewrite ?Hnot.
  - apply negb_true_iff in Hk. rewrite Hk. eauto.
  - eauto.
  - eauto.
Qed.

Lemma fetch_loop_last (n : nat) (attempt : Z) (k : nat) (response : option Response) :
  retriable (replies net k) = true ->
  (attempt =? retries self) = true ->
  fetch_loop self net (S n) attempt k response
  = (sleep_and_get self net attempt k, Raise (FetchError (cause (replies net k)))).
Proof.
  intros Hk Hlast. cbn [fetch_loop]. fold (sleep_and_get self net attempt k).
  destruct (replies net k) as [code body| | |]; simpl in Hk; try done; rewrite ?Hlast.
  - apply negb_true_iff in Hk. by rewrite Hk.
  - done.
  - done.
Qed.

Lemma fetch_loop_crash (n : nat) (attempt : Z) (k : nat) (response : option Response)
    (e : string) :
  replies net k = Unexpected e ->
  fetch_loop self net (S n) attempt k response
  = (sleep_and_get self net attempt k, Raise (FetchError ("Unexpected error: " +:+ e))).
Proof. intros He. cbn [fetch_loop]. by rewrite He. Qed.

(** While the replies stay retriable the loop goes on, and the last
    attempt turns the reply into a [FetchError]. *)
Lemma fetch_loop_exhausts (remaining : nat) :
  forall (attempt : Z) (k : nat) (response : option Response),
  attempt + Z.of_nat remaining = retries self ->
  (forall j, (k <= j <= k + remaining)%nat -> retriable (replies net j) = true) ->
  snd (fetch_loop self net (S remaining) attempt k response)
    = Raise (FetchError (cause (replies net (k + remaining)))) /\
  attempts (fst (fetch_loop self net (S remaining) attempt k response)) = S remaining.
Proof.
  induction remaining as [|n IH]; intros attempt k response Hatt Hret.
  - rewrite fetch_loop_last; [|apply Hret; lia|lia].
    by replace (k + 0)%nat with k by lia.
  - destruct (fetch_loop_retry (S n) attempt k response) as [resp ->];
      [apply Hret; lia|lia|].
    rewrite attempts_after. cbn [after_events snd].
    destruct (IH (attempt + 1) (S k) resp) as [-> ->]; [lia| |].
    + intros j Hj. apply Hret. lia.
    + by replace (S k + n)%nat with (k + S n)%nat by lia.
Qed.

(** An unexpected exception ends the loop on the attempt where it occurs. *)
Lemma fetch_loop_unexpected (m : nat) :
  forall (remaining : nat) (attempt : Z) (k : nat) (response : option Response) (e : string),
  (m < remaining)%nat ->
  attempt + Z.of_nat remaining = retries self + 1 ->
  (forall j, (k <= j < k + m)%nat -> retriable (replies net j) = true) ->
  replies net (k + m) = Unexpected e ->
  snd (fetch_loop self net remaining attempt k response)
    = Raise (FetchError ("Unexpected error: " +:+ e)) /\
  attempts (fst (fetch_loop self net remaining attempt k response)) = S m.
Proof.
  induction m as [|m IH]; intros remaining attempt k response e Hm Hatt Hret He;
    (destruct remaining as [|n]; [lia|]).
  - replace (k + 0)%nat with k in He by lia.
    by rewrite (fetch_loop_crash _ _ _ _ e).
  - destruct (fetch_loop_retry n attempt k response) as [resp ->];
      [apply Hret; lia|lia|].
    rewrite attempts_after. cbn [after_events snd].
    destruct (IH n (attempt + 1) (S k) resp e) as [-> ->]; [lia|lia| | |done].
    + intros j Hj. apply Hret. lia.
    + by replace (S k + m)%nat with (k + S m)%nat by lia.
Qed.

Lemma cause_truthy (r : reply) : Py.truthy (cause r) = true.
Proof. by destruct r. Qed.

(** C2: with a maximum of [N = n + 1 >= 1] attempts, when each of the [N]
    replies is a non-2xx status, a timeout or a transport error,
    [fetch_page] raises [FetchError] after exactly [N] requests, with the
    (non-empty) cause of the last reply as its text; and when the reply to
    an attempt [k + 1 <= N] is any other exception, after retriable replies
    only, [fetch_page] raises [FetchError] after [k + 1] requests, without
    making the remaining ones. *)
Theorem fetch_page_raises_FetchError (n : nat) :
  retries self = Z.of_nat (S n) ->
  ((forall j, (j <= n)%nat -> retriable (replies net j) = true) ->
   snd (fetch_page self net) = Raise (FetchError (cause (replies net n))) /\
   attempts (fst (fetch_page self net)) = S n /\
   Py.truthy (cause (replies net n)) = true) /\
  (forall (k : nat) (e : string),
   (k <= n)%nat ->
   (forall j, (j < k)%nat -> retriable (replies net j) = true) ->
   replies net k = Unexpected e ->
   snd (fetch_page self net) = Raise (FetchError ("Unexpected error: " +:+ e)) /\
   attempts (fst (fetch_page self net)) = S k).
Proof.
  intros HN. unfold fetch_page. rewrite HN, Nat2Z.id. split.
  - intros Hret.
    destruct (fetch_loop_exhausts n 1 0%nat None) as [H1 H2]; [lia| |].
    { intros j Hj. apply Hret. lia. }
    change (0 + n)%nat with n in H1. rewrite H1, H2. auto using cause_truthy.
  - intros k e Hk Hret He.
    apply (fetch_loop_unexpected k); [lia|lia| |done].
    intros j Hj. apply Hret. lia.
Qed.

Lemma sleeps_before_gets_loop (remaining : nat) :
  forall (attempt : Z) (k : nat) (response : option Response),
  sleeps_before_gets (delay_window (rate_limit self))
    (fst (fetch_loop self net remaining attempt k response)) /\
  length (delays (fst (fetch_loop self net remaining attempt k response)))
    = attempts (fst (fetch_loop self net remaining attempt k response)).
Proof.
  induction remaining as [|n IH]; intros attempt k response.
  - simpl. by destruct response.
  - cbn [fetch_loop].
    assert (delay_window (rate_limit self)
              (randint (rate_limit self - 1) (rate_limit self + 3) (draws net k))) as Hd.
    { unfold delay_window. apply randint_range. lia. }
    destruct (replies net k) as [code body| | |];
      repeat match goal with |- context [if ?b then _ else _] => destruct b end;
      cbn; try (split; [split; [exact Hd|]|f_equal]; try done; apply IH).
Qed.

(** C9 (as amended): every request of [fetch_page], the first included,
    follows at once a sleep whose duration is an integer of
    [rate_limit - 1 .. rate_limit + 3]; there are as many sleeps as
    requests. *)
Theorem fetch_page_sleeps_before_each_attempt :
  sleeps_before_gets (delay_window (rate_limit self)) (fst (fetch_page self net)) /\
  length (delays (fst (fetch_page self net))) = attempts (fst (fetch_page self net)).
Proof. apply sleeps_before_gets_loop. Qed.

End FetcherFacts.

Lemma fetch_page_raises_FetchError_witness :
  snd (Fetcher.fetch_page fetcher_404 network_404) = Raise (FetchError "HTTP error: 404") /\
  Fetcher.attempts (fst (Fetcher.fetch_page fetcher_404 network_404)) = 1%nat.
Proof.
  destruct (fetch_page_raises_FetchError fetcher_404 network_404 0 eq_refl) as [H _].
  destruct (H ltac:(intros j _; reflexivity)) as (H1 & H2 & _).
  split; [exact H1|exact H2].
Defined.

(** C9, the claim as worded fails: with the default rate limit delay 3 the
    first sleep can last 2 seconds, below the configured delay, so it lies
    in no window that starts at the configured delay. *)
Lemma fetch_page_delay_below_rate_limit :
  fst (Fetcher.fetch_page (Fetcher.mkFetcher 10 3 3)
         (Fetcher.mkNetwork (fun _ => 0) (fun _ => Fetcher.Responded 200 "")))
    = [Fetcher.Sleep 2; Fetcher.Get 1] /\
  forall n, ~ spec_delay_window 3 n 2.
Proof. split; [reflexivity|]. unfold spec_delay_window. lia. Qed.

(** ** The frontier: [URLManager] *)

Section FrontierFacts.

Import URLManager.

Lemma is_visited_true (u : string) (r : Redis) :
  is_visited u r = true <-> u ∈ visited_urls r.
Proof. unfold is_visited. apply bool_decide_eq_true. Qed.

Lemma is_visited_false (u : string) (r : Redis) :
  is_visited u r = false <-> u ∉ visited_urls r.
Proof. unfold is_visited. apply bool_decide_eq_false. Qed.

Lemma spop_spec `{Countable A} (pick : nat) (s : gset A) :
  match spop pick s with
  | (Some x, s') => x ∈ s /\ s' = s ∖ {[x]}
  | (None, s') => s = ∅ /\ s' = s
  end.
Proof.
  unfold spop. destruct (elements s !! (pick mod size s)%nat) as [x|] eqn:E.
  - split; [|done]. apply elem_of_elements. by eapply list_elem_of_lookup_2.
  - split; [|done]. apply lookup_ge_None in E.
    destruct (decide (size s = 0%nat)) as [Hz|Hnz].
    + by apply size_empty_inv, leibniz_equiv in Hz.
    + exfalso. pose proof (Nat.mod_upper_bound pick (size s) Hnz).
      unfold size, set_size in *. simpl in *. lia.
Qed.

Lemma add_to_queue_visited (u : string) (r : Redis) :
  u ∈ visited_urls r -> add_to_queue u r = (false, r).
Proof. intros Hv. unfold add_to_queue. by rewrite (proj2 (is_visited_true u r) Hv). Qed.

Lemma add_to_queue_pending (v : string) (r : Redis) :
  v ∈ crawl_queue r -> is_visited v r = false -> add_to_queue v r = (false, r).
Proof.
  intros Hq Hv. unfold add_to_queue, sadd. rewrite Hv.
  rewrite decide_True by done. simpl.
  assert ({[v]} ∪ crawl_queue r = crawl_queue r) as -> by set_solver.
  by destruct r.
Qed.

Lemma perform_keeps_visited (u : string) (c : call) (r : Redis) :
  is_clear_all c = false ->
  u ∈ visited_urls r -> u ∈ visited_urls (perform c r).2.
Proof.
  intros Hc Hv. destruct c as [v|vs|pick|v|v e|i n p|pick|]; simpl in *; try done.
  - unfold add_to_queue, sadd. by destruct (is_visited v r).
  - unfold add_multiple_to_queue. destruct vs; [done|].
    by destruct (List.filter _ _).
  - unfold get_next_url. by destruct (spop pick (crawl_queue r)).
  - set_solver.
  - unfold get_next_image_data. by destruct (spop pick (image_retry_queue r)).
Qed.

Lemma get_next_url_spec (pick : nat) (r : Redis) :
  crawl_queue (get_next_url pick r).2 ⊆ crawl_queue r /\
  forall x, (get_next_url pick r).1 = Some x ->
            x ∈ crawl_queue r /\ crawl_queue (get_next_url pick r).2 = crawl_queue r ∖ {[x]}.
Proof.
  unfold get_next_url. pose proof (spop_spec pick (crawl_queue r)) as Hs.
  destruct (spop pick (crawl_queue r)) as [[x|] q]; simpl.
  - destruct Hs as [Hx ->]. split; [set_solver|]. by intros ? [= <-].
  - destruct Hs as [_ ->]. split; [done|]. by intros.
Qed.

Lemma get_next_url_none (pick : nat) (r r' : Redis) :
  get_next_url pick r = (None, r') -> crawl_queue r' = crawl_queue r.
Proof.
  unfold get_next_url. pose proof (spop_spec pick (crawl_queue r)) as Hs.
  destruct (spop pick (crawl_queue r)) as [[x|] q]; [done|].
  destruct Hs as [_ ->]. by intros [= <-].
Qed.

Lemma perform_keeps_settled (u : string) (c : call) (r : Redis) :
  is_clear_all c = false ->
  settled u r -> settled u (perform c r).2 /\ (perform c r).1 <> RUrl (Some u).
Proof.
  intros Hc [Hv Hq]. split; [split; [by apply perform_keeps_visited|]|].
  - destruct c as [v|vs|pick|v|v e|i n p|pick|]; simpl in *; try done.
    + unfold add_to_queue, sadd. destruct (is_visited v r) eqn:E; [done|].
      apply is_visited_false in E. simpl. set_solver.
    + unfold add_multiple_to_queue. destruct vs as [|v vs]; [done|].
      destruct (List.filter _ (v :: vs)) as [|x l] eqn:E; [done|].
      cbn [snd crawl_queue]. intros [Hin|Hin]%elem_of_union; [|done].
      rewrite <- E in Hin.
      apply elem_of_list_to_set, list_elem_of_In, filter_In in Hin as [_ Hin].
      apply negb_true_iff, is_visited_false in Hin. done.
    + destruct (get_next_url_spec pick r) as [Hsub _].
      destruct (get_next_url pick r) as [x r']. simpl in *. set_solver.
    + unfold get_next_image_data. by destruct (spop pick (image_retry_queue r)).
  - destruct c as [v|vs|pick|v|v e|i n p|pick|]; simpl in *; try done.
    + by destruct (add_to_queue v r).
    + by destruct (add_multiple_to_queue vs r).
    + destruct (get_next_url_spec pick r) as [_ Hx].
      destruct (get_next_url pick r) as [x r']. simpl in *.
      intros [= ->]. destruct (Hx u eq_refl) as [? _]. done.
    + unfold get_next_image_data. by destruct (spop pick (image_retry_queue r)).
Qed.

Lemma perform_all_keeps_visited (u : string) (cs : list call) :
  forall r, no_clear_all cs = true ->
  u ∈ visited_urls r -> u ∈ visited_urls (perform_all cs r).2.
Proof.
  induction cs as [|c cs IH]; intros r Hcs Hv; [done|].
  simpl in Hcs. apply andb_true_iff in Hcs as [Hc Hcs]. apply negb_true_iff in Hc.
  pose proof (perform_keeps_visited u c r Hc Hv) as Hv'.
  simpl. destruct (perform c r) as [a r1].
  specialize (IH r1 Hcs Hv'). by destruct (perform_all cs r1).
Qed.

Lemma perform_all_keeps_settled (u : string) (cs : list call) :
  forall r, no_clear_all cs = true ->
  settled u r ->
  settled u (perform_all cs r).2 /\
  Forall (fun a => a <> RUrl (Some u)) (perform_all cs r).1.
Proof.
  induction cs as [|c cs IH]; intros r Hcs Hst; [by split|].
  simpl in Hcs. apply andb_true_iff in Hcs as [Hc Hcs]. apply negb_true_iff in Hc.
  destruct (perform_keeps_settled u c r Hc Hst) as [Hst' Ha].
  simpl. destruct (perform c r) as [a r1].
  specialize (IH r1 Hcs Hst'). destruct (perform_all cs r1) as [l r2].
  simpl in *. destruct IH. auto.
Qed.

(** C1 (as amended): as long as [clear_all] is not called, after
    [mark_visited(u)] every [add_to_queue(u)] returns false and leaves the
    store as it is; if [u] was not pending when it was marked, it is
    pending in no later state and no later [get_next_url] returns it.
    Adding a URL that is pending and not visited returns false and
    changes nothing. *)
Theorem visited_url_is_never_enqueued (u : string) (r0 : Redis) (cs : list call) :
  no_clear_all cs = true ->
  let run := perform_all cs (mark_visited u r0) in
  add_to_queue u run.2 = (false, run.2) /\
  (u ∉ crawl_queue r0 ->
   (u ∉ crawl_queue run.2) /\
   Forall (fun a => a <> RUrl (Some u)) run.1 /\
   forall pick, (get_next_url pick run.2).1 <> Some u) /\
  (forall (v : string) (r : Redis),
   v ∈ crawl_queue r -> is_visited v r = false -> add_to_queue v r = (false, r)).
Proof.
  intros Hcs run.
  assert (u ∈ visited_urls (mark_visited u r0)) as Hv by (simpl; set_solver).
  split; [|split; [|apply add_to_queue_pending]].
  - apply add_to_queue_visited. by apply perform_all_keeps_visited.
  - intros Hq.
    destruct (perform_all_keeps_settled u cs (mark_visited u r0) Hcs) as [[_ Hq2] Hl];
      [by split|].
    split; [done|]. split; [done|]. intros pick Hp.
    destruct (get_next_url_spec pick run.2) as [_ Hx].
    destruct (Hx u Hp) as [? _]. done.
Qed.

End FrontierFacts.

Lemma visited_url_is_never_enqueued_witness :
  let u := "https://example.com/visited" in
  let cs := [URLManager.AddToQueue u; URLManager.GetNextUrl 0;
             URLManager.AddMultipleToQueue [u; "https://example.com/2"];
             URLManager.GetNextUrl 5] in
  let run := URLManager.perform_all cs (URLManager.mark_visited u URLManager.empty) in
  URLManager.add_to_queue u run.2 = (false, run.2) /\
  Forall (fun a => a <> URLManager.RUrl (Some u)) run.1.
Proof.
  intros u cs run.
  destruct (visited_url_is_never_enqueued u URLManager.empty cs eq_refl) as (H1 & H2 & _).
  split; [exact H1|]. apply H2. apply not_elem_of_empty.
Defined.

(** C1, the claim as worded fails: a URL that was dequeued, enqueued
    again while it was being processed, and then marked visited, is
    returned by [get_next_url] once more; and after [clear_all] the visited
    URL is accepted again. *)
Lemma visited_url_still_dequeued :
  let u := "https://example.com/1" in
  let r1 := (URLManager.add_to_queue u URLManager.empty).2 in
  let r2 := (URLManager.get_next_url 0 r1).2 in
  let r3 := (URLManager.add_to_queue u r2).2 in
  let r4 := URLManager.mark_visited u r3 in
  (URLManager.get_next_url 0 r1).1 = Some u /\
  (URLManager.add_to_queue u r2).1 = true /\
  URLManager.is_visited u r4 = true /\
  (URLManager.get_next_url 0 r4).1 = Some u /\
  (URLManager.add_to_queue u (URLManager.clear_all r4)).1 = true.
Proof. repeat split; vm_compute; reflexivity. Qed.

(** ** The page record store: [add_crawled_page] *)

Section RecordFacts.

Import Sql.

Context (utcnow : nat -> Z).

Lemma first_by_url_None (u : string) (rows : list CrawledPage) :
  first_by_url u rows = None ->
  ~ In u (List.map url rows) /\ List.filter (fun p => String.eqb (url p) u) rows = [].
Proof.
  unfold first_by_url. induction rows as [|p rows IH]; simpl; [by intros _; split; [tauto|]|].
  destruct (String.eqb_spec (url p) u) as [Heq|Hne]; [done|].
  intros H. destruct (IH H) as [Hn ->]. split; [|done]. by intros [?|?].
Qed.

Lemma filter_url_absent (u : string) (rows : list CrawledPage) :
  ~ In u (List.map url rows) ->
  List.filter (fun p => String.eqb (url p) u) rows = [].
Proof.
  induction rows as [|p rows IH]; simpl; [done|]. intros Hn.
  destruct (String.eqb_spec (url p) u) as [Heq|Hne]; [tauto|]. apply IH. tauto.
Qed.

Lemma overwrite_changed (new old : option string) :
  overwrite_if_truthy new old <> old ->
  is_Some new /\ overwrite_if_truthy new old = new.
Proof.
  unfold overwrite_if_truthy. destruct (Py.truthy_opt new) eqn:Ht; [|done].
  intros _. by destruct new.
Qed.

(** The effect of the in-place update on a table with unique URLs. *)
Lemma update_first_spec (u : string) (f : CrawledPage -> CrawledPage)
    (rows : list CrawledPage) (p : CrawledPage) :
  (forall q, url (f q) = url q) ->
  NoDup (List.map url rows) ->
  first_by_url u rows = Some p ->
  List.map url (update_first u f rows) = List.map url rows /\
  List.filter (fun q => String.eqb (url q) u) (update_first u f rows) = [f p] /\
  first_by_url u (update_first u f rows) = Some (f p) /\
  (forall v, v <> u ->
     List.filter (fun q => String.eqb (url q) v) (update_first u f rows)
     = List.filter (fun q => String.eqb (url q) v) rows) /\
  (forall q, In q (update_first u f rows) -> q = f p \/ In q rows).
Proof.
  intros Hf. unfold first_by_url.
  induction rows as [|r rows IH]; simpl; [done|]. intros Hnd Hfind.
  apply NoDup_cons in Hnd as [Hr Hnd]. rewrite list_elem_of_In in Hr.
  destruct (String.eqb_spec (url r) u) as [Hu|Hne].
  - injection Hfind as ->. simpl. rewrite Hf.
    rewrite (proj2 (String.eqb_eq _ _) Hu). subst u.
    rewrite (filter_url_absent _ _ Hr).
    repeat split; try done.
    + intros v Hv. by destruct (String.eqb_spec (url (f p)) v), (String.eqb_spec (url p) v);
        rewrite ?Hf in *; try congruence.
    + intros q [<-|?]; auto.
  - destruct (IH Hnd Hfind) as (Hm & Hfl & Hfst & Hoth & Hin). simpl.
    rewrite Hm. apply String.eqb_neq in Hne. rewrite Hne.
    repeat split; try done.
    + intros v Hv. rewrite (Hoth v Hv). done.
    + intros q [<-|Hq]; [auto|]. destruct (Hin q Hq); auto.
Qed.

Lemma filter_url_app (v : string) (rows : list CrawledPage) (p : CrawledPage) :
  List.filter (fun q => String.eqb (url q) v) (rows ++ [p])
  = List.filter (fun q => String.eqb (url q) v) rows
    ++ (if String.eqb (url p) v then [p] else []).
Proof. by rewrite List.filter_app. Qed.

Lemma find_url_app_absent (u : string) (rows : list CrawledPage) (p : CrawledPage) :
  first_by_url u rows = None -> url p = u -> first_by_url u (rows ++ [p]) = Some p.
Proof.
  unfold first_by_url. intros Hn Hu. induction rows as [|r rows IH]; simpl in *.
  - by rewrite (proj2 (String.eqb_eq _ _) Hu).
  - destruct (String.eqb (url r) u); [done|]. by apply IH.
Qed.

Lemma add_crawled_page_body_spec (a : PageFields) (db : Database) :
  unique_urls db ->
  let db' := add_crawled_page_body utcnow a db in
  unique_urls db' /\
  rows_of (f_url a) db' = [upserted utcnow a db] /\
  first_by_url (f_url a) (crawled_pages db') = Some (upserted utcnow a db) /\
  (forall v, v <> f_url a -> rows_of v db' = rows_of v db) /\
  (forall q, In q (crawled_pages db') -> q = upserted utcnow a db \/ In q (crawled_pages db)) /\
  (clock_reads db < clock_reads db')%nat.
Proof.
  intros Hu db'. subst db'. unfold add_crawled_page_body, upserted,
    rows_of, unique_urls in *.
  destruct (first_by_url (f_url a) (crawled_pages db)) as [p|] eqn:E; simpl.
  - destruct (update_first_spec (f_url a) (updated_row a (utcnow (clock_reads db)))
                (crawled_pages db) p ltac:(done) Hu E) as (Hm & Hfl & Hfst & Hoth & Hin).
    rewrite Hm. repeat split; try done. lia.
  - destruct (first_by_url_None _ _ E) as [Hn Hfl].
    rewrite List.map_app, filter_url_app, Hfl. simpl.
    rewrite String.eqb_refl. repeat split.
    + apply NoDup_app. split; [done|]. split; [|apply NoDup_singleton].
      intros x Hx Hx'. apply list_elem_of_In in Hx, Hx'.
      destruct Hx' as [<-|[]]. done.
    + by apply find_url_app_absent.
    + intros v Hv. rewrite filter_url_app. simpl.
      destruct (String.eqb_spec (f_url a) v); [congruence|]. by rewrite app_nil_r.
    + intros q [?|[<-|[]]]%in_app_or; auto.
    + lia.
Qed.

Lemma upserted_fields (a : PageFields) (db : Database) :
  url (upserted utcnow a db) = f_url a /\
  status (upserted utcnow a db) = f_status a /\
  html_file_size (upserted utcnow a db) = f_html_file_size a /\
  has_image (upserted utcnow a db) = f_has_image a /\
  image_size (upserted utcnow a db) = f_image_size a /\
  (Py.truthy_opt (f_image_url a) = true -> image_url (upserted utcnow a db) = f_image_url a) /\
  (Py.truthy_opt (f_image_filename a) = true ->
     image_filename (upserted utcnow a db) = f_image_filename a) /\
  (Py.truthy_opt (f_image_status a) = true ->
     image_status (upserted utcnow a db) = f_image_status a).
Proof.
  unfold upserted, first_by_url.
  destruct (List.find _ _) as [p|] eqn:E; simpl; unfold overwrite_if_truthy.
  - apply List.find_some in E as [_ E]. apply String.eqb_eq in E.
    repeat split; try done; by intros ->.
  - repeat split; try done; by intros ->.
Qed.

Lemma overwrite_stores (new old : option string) :
  Py.truthy_opt new = true -> overwrite_if_truthy new old = new.
Proof. unfold overwrite_if_truthy. by intros ->. Qed.

Lemma overwrite_keeps (a : PageFields) (u f st : option string) (p : CrawledPage) :
  image_url p = overwrite_if_truthy (f_image_url a) u ->
  image_filename p = overwrite_if_truthy (f_image_filename a) f ->
  image_status p = overwrite_if_truthy (f_image_status a) st ->
  keeps_image a u f st p.
Proof.
  unfold keeps_image, overwrite_if_truthy. intros -> -> ->.
  by repeat split; intros ->.
Qed.

Lemma upserted_carries (a : PageFields) (db : Database) : carries a (upserted utcnow a db).
Proof.
  unfold carries, upserted, first_by_url.
  destruct (List.find _ _) as [p|] eqn:E; cbn.
  - apply List.find_some in E as [_ E]. apply String.eqb_eq in E.
    repeat split; try done; apply overwrite_stores.
  - repeat split; try done; apply overwrite_stores.
Qed.

(** C3 (as amended): on a table whose URLs are unique, [add_crawled_page]
    leaves exactly one row under the URL and keeps the URLs unique.  The
    row carries the name, content, status, both sizes and [has_image] of
    the call, and every image field ([image_url], [image_filename],
    [image_status]) whose new value is a non-empty string; an image field
    whose new value is null or empty keeps the value of the existing row,
    and on an insert is null, or ["no_image"] for the status.  An update
    keeps [id] and [crawled_at] and sets [updated_at] to the reading of the
    clock; an insert takes [crawled_at] and [updated_at] from two readings.
    After a second upsert of the same URL there is still exactly one row,
    with the [id] and [crawled_at] of the first; its [updated_at] is the
    next reading of the clock after the one the first upsert stored, so it
    is strictly later exactly when that reading is. *)
Theorem add_crawled_page_is_an_upsert (a a2 : PageFields) (db : Database) :
  unique_urls db ->
  f_url a2 = f_url a ->
  let db1 := (add_crawled_page utcnow None a db).2 in
  let db2 := (add_crawled_page utcnow None a2 db1).2 in
  exists p1 p2,
    (unique_urls db1 /\ rows_of (f_url a) db1 = [p1]) /\
    (unique_urls db2 /\ rows_of (f_url a) db2 = [p2]) /\
    carries a p1 /\ carries a2 p2 /\
    match first_by_url (f_url a) (crawled_pages db) with
    | Some p =>
        id p1 = id p /\ crawled_at p1 = crawled_at p /\
        updated_at p1 = utcnow (clock_reads db) /\
        keeps_image a (image_url p) (image_filename p) (image_status p) p1
    | None =>
        crawled_at p1 = utcnow (clock_reads db) /\
        updated_at p1 = utcnow (S (clock_reads db)) /\
        keeps_image a None None (Some "no_image") p1
    end /\
    id p2 = id p1 /\ crawled_at p2 = crawled_at p1 /\
    keeps_image a2 (image_url p1) (image_filename p1) (image_status p1) p2 /\
    exists k,
      updated_at p1 = utcnow k /\ updated_at p2 = utcnow (S k) /\
      (updated_at p1 < updated_at p2 <-> utcnow k < utcnow (S k)).
Proof.
  intros Hu Hurl.
  change (add_crawled_page utcnow None a db).2 with (add_crawled_page_body utcnow a db).
  intros db1.
  change (add_crawled_page utcnow None a2 db1).2 with (add_crawled_page_body utcnow a2 db1).
  intros db2.
  destruct (add_crawled_page_body_spec a db Hu) as (Hu1 & Hr1 & Hg1 & _ & _ & Hc1).
  fold db1 in Hu1, Hr1, Hg1, Hc1.
  destruct (add_crawled_page_body_spec a2 db1 Hu1) as (Hu2 & Hr2 & _).
  fold db2 in Hu2, Hr2. rewrite Hurl in Hr2.
  exists (upserted utcnow a db), (upserted utcnow a2 db1).
  split; [done|]. split; [done|].
  split; [apply upserted_carries|]. split; [apply upserted_carries|].
  assert (upserted utcnow a2 db1
          = updated_row a2 (utcnow (clock_reads db1)) (upserted utcnow a db)) as Hp2.
  { unfold upserted at 1. by rewrite Hurl, Hg1. }
  rewrite Hp2.
  assert (clock_reads db1
          = S (if first_by_url (f_url a) (crawled_pages db) is Some _
               then clock_reads db else S (clock_reads db))) as Hk.
  { subst db1. unfold add_crawled_page_body.
    by destruct (first_by_url (f_url a) (crawled_pages db)). }
  rewrite Hk. unfold upserted.
  destruct (first_by_url (f_url a) (crawled_pages db)) as [p|] eqn:Eg.
  - split.
    { do 3 (split; [done|]). by apply overwrite_keeps. }
    do 2 (split; [done|]). split; [by apply overwrite_keeps|].
    by exists (clock_reads db).
  - split.
    { do 2 (split; [done|]). by apply overwrite_keeps. }
    do 2 (split; [done|]). split; [by apply overwrite_keeps|].
    by exists (S (clock_reads db)).
Qed.

End RecordFacts.

Lemma add_crawled_page_is_an_upsert_witness :
  let db0 := Sql.mkDatabase [] 0 in
  let db1 := (Sql.add_crawled_page ticking_clock None hans_fields db0).2 in
  let db2 := (Sql.add_crawled_page ticking_clock None hans_fields db1).2 in
  exists p1 p2,
    Sql.rows_of (Sql.f_url hans_fields) db1 = [p1] /\
    Sql.rows_of (Sql.f_url hans_fields) db2 = [p2] /\
    Sql.crawled_at p2 = Sql.crawled_at p1 /\
    Sql.updated_at p1 < Sql.updated_at p2.
Proof.
  intros db0 db1 db2.
  destruct (add_crawled_page_is_an_upsert ticking_clock hans_fields hans_fields db0)
    as (p1 & p2 & [_ H1] & [_ H2] & _ & _ & _ & _ & H3 & _ & k & Hk1 & Hk2 & Hlt).
  - apply NoDup_nil_2.
  - reflexivity.
  - exists p1, p2. repeat split; try assumption.
    apply Hlt. unfold ticking_clock. lia.
Defined.

(** Two upserts while the clock reads the same instant store the same
    [updated_at]; and a new image URL that is the empty string, though
    not null, does not replace the stored one. *)
Lemma add_crawled_page_updated_at_can_stand_still :
  let db0 := Sql.mkDatabase [] 0 in
  let db1 := (Sql.add_crawled_page stopped_clock None hans_image_fields db0).2 in
  let db2 := (Sql.add_crawled_page stopped_clock None hans_empty_image_fields db1).2 in
  exists p1 p2,
    Sql.rows_of hans_url db1 = [p1] /\
    Sql.rows_of hans_url db2 = [p2] /\
    Sql.updated_at p2 = Sql.updated_at p1 /\
    Sql.f_image_url hans_empty_image_fields = Some EmptyString /\
    Sql.image_url p2 = Some hans_image.
Proof. do 2 eexists. by vm_compute. Qed.

(** ** The per-page pipeline: [crawl_npc_page] *)

Section CrawlerFacts.

Import Crawler.

Context (hc : Urllib.HostChecks).
Context (unquote : string -> string).
Context (utcnow : nat -> Z).

Abbreviation crawl_npc_page := (Crawler.crawl_npc_page hc unquote utcnow).
Abbreviation crawl_npc_page_try := (Crawler.crawl_npc_page_try hc utcnow).

Lemma url_to_filename_truthy (u : string) (ext : option string) (fn : string) :
  url_to_filename hc u ext = Ok fn -> Py.truthy fn = true.
Proof.
  unfold url_to_filename. destruct (urlparse_path hc u) as [p|e]; simpl; [|done].
  set (f := List.hd "" (Py.split "#" (List.last (Py.split "/" p) ""))).
  clearbody f. destruct ext as [ext|]; intros [= <-]; by destruct f.
Qed.

(** the pipeline started: name and file name were derived *)
Lemma crawl_npc_page_started (env : PageEnv) (url name filename : string) (w : World) :
  extract_npc_name_from_url hc unquote url = Ok name ->
  url_to_filename hc url (Some "html") = Ok filename ->
  crawl_npc_page env url w
  = try_except (crawl_npc_page_try env url name)
      (fun fe =>
         add_crawled_page utcnow (db_fault env) (failed_fields url name filename);;;
         mark_failed url (str fe);;;
         ret (mkCrawlNPCResult false false (Some (str fe))))
      (fun e =>
         mark_failed url (str e);;;
         ret (mkCrawlNPCResult false false (Some (str e)))) w.
Proof. intros Hn Hf. unfold Crawler.crawl_npc_page, bind, lift. by rewrite Hn, Hf. Qed.

(** the pipeline not started: the exception of the helper leaves
    [crawl_npc_page] with the world untouched *)
Lemma crawl_npc_page_not_started (env : PageEnv) (url : string) (w : World) :
  (exists e, extract_npc_name_from_url hc unquote url = Raise e) \/
  (exists e, url_to_filename hc url (Some "html") = Raise e) ->
  exists e, crawl_npc_page env url w = (w, Raise e).
Proof.
  intros H. unfold Crawler.crawl_npc_page, bind, lift.
  destruct (extract_npc_name_from_url hc unquote url) as [name|e1]; [|eauto].
  destruct (url_to_filename hc url (Some "html")) as [fn|e2]; [|eauto].
  by destruct H as [[e [=]]|[e [=]]].
Qed.

Ltac branch_leaf :=
  simpl; do 4 (split; [done|]);
  let loc := fresh "loc" in let Hloc := fresh "Hloc" in
  intros loc Hloc; try discriminate Hloc; injection Hloc as <-; simpl;
  try (intros [=]).

(** What the image branch can do: it writes at most the image retry set,
    and claims an image only after a successful download. *)
Lemma image_branch_cases (env : PageEnv) (url name : string)
    (ex : ImageUrlExtractionResult) (w : World) :
  let out := image_branch hc env url name ex w in
  db out.1 = db w /\
  URLManager.crawl_queue (redis out.1) = URLManager.crawl_queue (redis w) /\
  URLManager.visited_urls (redis out.1) = URLManager.visited_urls (redis w) /\
  URLManager.failed_urls (redis out.1) = URLManager.failed_urls (redis w) /\
  forall loc, out.2 = Ok loc ->
    (l_has_image loc = true ->
     l_image_status loc = "success" /\
     exists img dl fn,
       image_url ex = Some img /\ found ex = true /\
       downloaded env = Ok dl /\ success dl = true /\
       Py.truthy_opt (image_path dl) = true /\
       url_to_filename hc img None = Ok fn /\
       l_image_filename loc = Some fn /\ Py.truthy fn = true).
Proof.
  unfold image_branch, bind, lift, ret, add_to_image_queue, with_redis,
    URLManager.add_to_image_queue, URLManager.sadd.
  destruct ex as [[img|] fd]; simpl; [|by branch_leaf].
  destruct (fd && Py.truthy img) eqn:Hfound; simpl; [|by branch_leaf].
  apply andb_true_iff in Hfound as [-> Himg].
  destruct (downloaded env) as [dl|e]; simpl; [|by branch_leaf].
  destruct (success dl && Py.truthy_opt (image_path dl)) eqn:Hdl; simpl;
    [|by branch_leaf].
  apply andb_true_iff in Hdl as [Hs Hp].
  destruct (url_to_filename hc img None) as [fn|e] eqn:Hfn; simpl; [|by branch_leaf].
  destruct (image_stat env) as [sz|e]; simpl; [|by branch_leaf].
  branch_leaf. split; [done|].
  exists img, dl, fn. repeat split; try done. by eapply url_to_filename_truthy.
Qed.

(** The [try] body: it never touches the pending set or the failed hash;
    when it raises, the record store is as before; when it returns, it has
    upserted a ["success"] record and marked the URL visited. *)
Lemma crawl_npc_page_try_cases (env : PageEnv) (url name : string) (w : World) :
  let out := crawl_npc_page_try env url name w in
  URLManager.crawl_queue (redis out.1) = URLManager.crawl_queue (redis w) /\
  URLManager.failed_urls (redis out.1) = URLManager.failed_urls (redis w) /\
  (forall e, out.2 = Raise e ->
     db out.1 = db w /\
     URLManager.visited_urls (redis out.1) = URLManager.visited_urls (redis w)) /\
  (forall res, out.2 = Ok res ->
     exists html path size ex loc w1,
       fetched env = Ok html /\ saved env = Ok (path, size) /\
       extracted env = Ok ex /\
       image_branch hc env url name ex w = (w1, Ok loc) /\
       db_fault env = None /\
       db out.1 = Sql.add_crawled_page_body utcnow
                    (success_fields url name path size ex loc) (db w) /\
       redis out.1 = URLManager.mark_visited url (redis w1) /\
       res = mkCrawlNPCResult true (l_has_image loc) None).
Proof.
  unfold Crawler.crawl_npc_page_try, bind, lift.
  destruct (fetched env) as [html|e]; simpl; [|by repeat split].
  destruct (saved env) as [[path size]|e]; simpl; [|by repeat split].
  destruct (extracted env) as [ex|e]; simpl; [|by repeat split].
  pose proof (image_branch_cases env url name ex w) as (Hdb & Hq & Hv & Hf & _).
  destruct (image_branch hc env url name ex w) as [w1 [loc|e]] eqn:Hb; simpl in *;
    [|by repeat split].
  unfold add_crawled_page, Sql.add_crawled_page, Sql.get_session.
  destruct (db_fault env) as [e|]; simpl; [by repeat split|].
  unfold mark_visited, with_redis, ret. simpl.
  do 2 (split; [done|]). split; [done|].
  intros res [= <-]. exists html, path, size, ex, loc, w1.
  rewrite Hdb. by repeat split.
Qed.

(** [crawl_npc_page] never writes the pending set. *)
Lemma crawl_npc_page_keeps_queue (env : PageEnv) (url : string) (w : World) :
  URLManager.crawl_queue (redis (crawl_npc_page env url w).1)
  = URLManager.crawl_queue (redis w).
Proof.
  destruct (extract_npc_name_from_url hc unquote url) as [name|e1] eqn:Hn;
    [|by destruct (crawl_npc_page_not_started env url w) as [e ->]; [eauto|]].
  destruct (url_to_filename hc url (Some "html")) as [fn|e2] eqn:Hfn;
    [|by destruct (crawl_npc_page_not_started env url w) as [e ->]; [eauto|]].
  rewrite (crawl_npc_page_started env url name fn w Hn Hfn). unfold try_except.
  pose proof (crawl_npc_page_try_cases env url name w) as (Hq & _).
  destruct (crawl_npc_page_try env url name w) as [w1 [res|e]]; simpl in *; [done|].
  unfold bind, add_crawled_page, Sql.add_crawled_page, Sql.get_session,
    mark_failed, with_redis, ret.
  destruct (is_FetchError e); [destruct (db_fault env)|]; simpl; done.
Qed.

(** C4: a detail page that is fetched and saved, on which an image URL
    is found, and whose image download reports failure, is recorded with
    status ["success"] and image status ["found"] (no ["failed"] record
    exists under its URL), its image goes to the image retry set as
    (image URL, NPC name, page URL), the URL is marked visited and not
    failed, and the result counts as a successful crawl. *)
Theorem image_download_failure_is_soft (env : PageEnv) (url name filename html path : string)
    (size : Z) (img : string) (dl : ImageDownloadResult) (w : World) :
  extract_npc_name_from_url hc unquote url = Ok name ->
  url_to_filename hc url (Some "html") = Ok filename ->
  fetched env = Ok html ->
  saved env = Ok (path, size) ->
  extracted env = Ok (mkExtraction (Some img) true) ->
  Py.truthy img = true ->
  downloaded env = Ok dl ->
  (success dl && Py.truthy_opt (image_path dl)) = false ->
  db_fault env = None ->
  Sql.unique_urls (db w) ->
  let out := crawl_npc_page env url w in
  out.2 = Ok (mkCrawlNPCResult true false None) /\
  (exists p, Sql.rows_of url (db out.1) = [p] /\
             Sql.status p = "success" /\ Sql.image_status p = Some "found" /\
             Sql.has_image p = false /\ Sql.image_url p = Some img /\
             Sql.html_file_size p = size) /\
  URLManager.model_dump_json (URLManager.mkImageData img name url)
    ∈ URLManager.image_retry_queue (redis out.1) /\
  url ∈ URLManager.visited_urls (redis out.1) /\
  URLManager.failed_urls (redis out.1) = URLManager.failed_urls (redis w).
Proof.
  intros Hn Hfn Hfetch Hsave Hex Himg Hdl Hfail Hdb Hu out. subst out.
  rewrite (crawl_npc_page_started env url name filename w Hn Hfn). unfold try_except.
  unfold Crawler.crawl_npc_page_try, image_branch.
  rewrite Hfetch, Hsave, Hex, Hdl, Hdb.
  cbv [bind lift ret image_url found]. rewrite Himg, andb_true_l, Hfail.
  cbv [add_to_image_queue with_redis URLManager.add_to_image_queue URLManager.sadd
       bind ret add_crawled_page Sql.add_crawled_page Sql.get_session mark_visited
       l_has_image l_image_filename l_image_status l_image_size_bytes or_zero fst snd].
  set (a := Sql.mkFields url name path false (Some img) None (Some "found") 0 "success" size).
  destruct (add_crawled_page_body_spec utcnow a (db w) Hu) as (_ & Hrows & _).
  destruct (upserted_fields utcnow a (db w)) as (_ & Hst & Hsz & Hhi & _ & Hiu & _ & His).
  split; [done|]. split; [|split; [|split; [|done]]].
  - exists (Sql.upserted utcnow a (db w)). split; [exact Hrows|].
    split; [exact Hst|]. split; [by apply His|]. split; [exact Hhi|]. split; [by apply Hiu|].
    exact Hsz.
  - set_solver.
  - set_solver.
Qed.

(** the image branch under Redis faults writes at most the image retry
    set *)
Lemma image_branch_under_frame (rf : RedisFaults) (env : PageEnv) (url name : string)
    (ex : ImageUrlExtractionResult) (w : World) :
  let out := image_branch_under hc rf env url name ex w in
  db out.1 = db w /\
  URLManager.crawl_queue (redis out.1) = URLManager.crawl_queue (redis w) /\
  URLManager.visited_urls (redis out.1) = URLManager.visited_urls (redis w) /\
  URLManager.failed_urls (redis out.1) = URLManager.failed_urls (redis w).
Proof.
  unfold image_branch_under, bind, lift, ret, unless, raise, bind, add_to_image_queue,
    with_redis, URLManager.add_to_image_queue, URLManager.sadd.
  destruct ex as [[img|] fd]; simpl; [|done].
  destruct (fd && Py.truthy img); simpl; [|done].
  destruct (downloaded env) as [dl|e]; simpl; [|done].
  destruct (success dl && Py.truthy_opt (image_path dl)); simpl.
  - destruct (url_to_filename hc img None) as [fn|e]; simpl; [|done].
    by destruct (image_stat env).
  - destruct (add_to_image_queue_fault rf) as [[e ex]|]; simpl; [|done].
    by destruct ex.
Qed.

(** When the [try] body raises under Redis faults, the pending set and
    the failed hash are as before, and so are the table of records and
    the visited set unless it was [mark_visited] that failed: then the
    record of the page has been committed, and the URL is in the visited
    set when the server had executed the command. *)
Lemma crawl_npc_page_try_under_raises (rf : RedisFaults) (env : PageEnv)
    (url name : string) (w w1 : World) (e : exn) :
  crawl_npc_page_try_under hc utcnow rf env url name w = (w1, Raise e) ->
  URLManager.crawl_queue (redis w1) = URLManager.crawl_queue (redis w) /\
  URLManager.failed_urls (redis w1) = URLManager.failed_urls (redis w) /\
  ((db w1 = db w /\
    URLManager.visited_urls (redis w1) = URLManager.visited_urls (redis w)) \/
   (exists f path size ex loc,
      mark_visited_fault rf = Some f /\ raised f = e /\
      saved env = Ok (path, size) /\ extracted env = Ok ex /\
      db w1 = Sql.add_crawled_page_body utcnow
                (success_fields url name path size ex loc) (db w) /\
      URLManager.visited_urls (redis w1)
      = if executed f then {[url]} ∪ URLManager.visited_urls (redis w)
        else URLManager.visited_urls (redis w))).
Proof.
  unfold Crawler.crawl_npc_page_try_under, bind, lift.
  destruct (fetched env) as [html|e0]; simpl; [|intros [= <- <-]; auto].
  destruct (saved env) as [[path size]|e0]; simpl; [|intros [= <- <-]; auto].
  destruct (extracted env) as [ex|e0]; simpl; [|intros [= <- <-]; auto].
  pose proof (image_branch_under_frame rf env url name ex w) as (Hdb & Hq & Hv & Hf).
  destruct (image_branch_under hc rf env url name ex w) as [w2 [loc|e0]]; simpl in *;
    [|intros [= <- <-]; auto].
  unfold add_crawled_page, Sql.add_crawled_page, Sql.get_session.
  destruct (db_fault env) as [e0|]; simpl; [intros [= <- <-]; auto|].
  unfold unless, raise, bind, mark_visited, with_redis, ret.
  destruct (mark_visited_fault rf) as [[e0 done_]|]; simpl; [|done].
  destruct done_; simpl; intros [= <- <-]; simpl; (do 2 (split; [done|])); right;
    eexists (mkRedisFault e0 _), path, size, ex, loc; rewrite Hdb, Hv; by repeat split.
Qed.

(** C5 (as amended): a URL that [urlparse] rejects makes
    [crawl_npc_page] raise before its [try]: nothing is written and the
    URL is not marked failed.  For a URL that [urlparse] accepts: when
    fetching the page raises [FetchError], the record store commits and
    Redis answers [mark_failed], exactly one record exists under the URL,
    with status ["failed"] and content size 0, the URL is in the failed
    hash with the error text, and neither the pending set nor the visited
    set changes.  When the [try] body raises any other exception and Redis
    answers [mark_failed], the URL is in the failed hash with the text of
    the exception, the pending set is as before, and the handler writes no
    record and does not touch the visited set: both are as the [try] body
    left them, which is as before the call unless the exception came from
    [mark_visited], after the ["success"] record of the page had been
    committed. *)
Theorem crawl_npc_page_failure_branches (rf : RedisFaults) (env : PageEnv) (url : string)
    (w : World) :
  let out := Crawler.crawl_npc_page_under hc unquote utcnow rf env url w in
  (forall e, urlparse_path hc url = Raise e -> out = (w, Raise e)) /\
  (forall name filename,
     extract_npc_name_from_url hc unquote url = Ok name ->
     url_to_filename hc url (Some "html") = Ok filename ->
     (forall m, fetched env = Raise (FetchError m) -> db_fault env = None ->
        mark_failed_fault rf = None ->
        Sql.unique_urls (db w) ->
        out.2 = Ok (mkCrawlNPCResult false false (Some m)) /\
        (exists p, Sql.rows_of url (db out.1) = [p] /\
                   Sql.status p = "failed" /\ Sql.html_file_size p = 0) /\
        URLManager.failed_urls (redis out.1) !! url = Some m /\
        URLManager.crawl_queue (redis out.1) = URLManager.crawl_queue (redis w) /\
        URLManager.visited_urls (redis out.1) = URLManager.visited_urls (redis w)) /\
     (forall e w1,
        Crawler.crawl_npc_page_try_under hc utcnow rf env url name w = (w1, Raise e) ->
        is_FetchError e = false ->
        mark_failed_fault rf = None ->
        out.2 = Ok (mkCrawlNPCResult false false (Some (str e))) /\
        URLManager.failed_urls (redis out.1) !! url = Some (str e) /\
        URLManager.crawl_queue (redis out.1) = URLManager.crawl_queue (redis w) /\
        db out.1 = db w1 /\
        URLManager.visited_urls (redis out.1) = URLManager.visited_urls (redis w1) /\
        ((db w1 = db w /\
          URLManager.visited_urls (redis w1) = URLManager.visited_urls (redis w)) \/
         (exists f path size ex loc,
            mark_visited_fault rf = Some f /\ raised f = e /\
            saved env = Ok (path, size) /\ extracted env = Ok ex /\
            db w1 = Sql.add_crawled_page_body utcnow
                      (success_fields url name path size ex loc) (db w) /\
            URLManager.visited_urls (redis w1)
            = if executed f then {[url]} ∪ URLManager.visited_urls (redis w)
              else URLManager.visited_urls (redis w))))).
Proof.
  intros out. subst out. split.
  - intros e He. unfold Crawler.crawl_npc_page_under, bind, lift, extract_npc_name_from_url.
    by rewrite He.
  - intros name filename Hn Hfn.
    assert (Crawler.crawl_npc_page_under hc unquote utcnow rf env url w
            = try_except (Crawler.crawl_npc_page_try_under hc utcnow rf env url name)
                (fun fe =>
                   add_crawled_page utcnow (db_fault env) (failed_fields url name filename);;;
                   unless (mark_failed_fault rf) (mark_failed url (str fe));;;
                   ret (mkCrawlNPCResult false false (Some (str fe))))
                (fun e =>
                   unless (mark_failed_fault rf) (mark_failed url (str e));;;
                   ret (mkCrawlNPCResult false false (Some (str e)))) w) as ->.
    { unfold Crawler.crawl_npc_page_under, bind, lift. by rewrite Hn, Hfn. }
    unfold try_except. split.
    + intros m Hfetch Hdb Hmf Hu.
      unfold Crawler.crawl_npc_page_try_under, bind, lift. rewrite Hfetch. simpl.
      unfold add_crawled_page, Sql.add_crawled_page, Sql.get_session, unless, mark_failed,
        with_redis, ret. rewrite Hdb, Hmf. simpl.
      destruct (add_crawled_page_body_spec utcnow (failed_fields url name filename) (db w) Hu)
        as (_ & Hrows & _).
      destruct (upserted_fields utcnow (failed_fields url name filename) (db w))
        as (_ & Hst & Hsz & _).
      split; [done|]. split; [|split; [apply lookup_insert_eq|done]].
      eexists. split; [exact Hrows|]. split; [exact Hst|exact Hsz].
    + intros e w1 Hbody Hne Hmf.
      destruct (crawl_npc_page_try_under_raises rf env url name w w1 e Hbody)
        as (Hq & Hf & Hdb).
      rewrite Hbody, Hne. unfold bind, unless, mark_failed, with_redis, ret. rewrite Hmf.
      simpl. split; [done|]. split; [apply lookup_insert_eq|]. done.
Qed.

(** with a Redis that answers, the pipeline under faults is the pipeline *)
Lemma crawl_npc_page_under_redis_answers (env : PageEnv) (url : string) (w : World) :
  Crawler.crawl_npc_page_under hc unquote utcnow redis_answers env url w
  = crawl_npc_page env url w.
Proof. reflexivity. Qed.

Lemma update_first_in (u : string) (f : Sql.CrawledPage -> Sql.CrawledPage)
    (rows : list Sql.CrawledPage) (p q : Sql.CrawledPage) :
  Sql.first_by_url u rows = Some p ->
  In q (Sql.update_first u f rows) -> q = f p \/ In q rows.
Proof.
  unfold Sql.first_by_url. induction rows as [|r rows IH]; simpl; [done|].
  destruct (String.eqb (Sql.url r) u).
  - intros [= ->] [<-|Hq]; auto.
  - intros Hfind [<-|Hq]; [auto|]. destruct (IH Hfind Hq); auto.
Qed.

(** every row of the table after an upsert is an old row or the upserted one *)
Lemma add_crawled_page_body_rows (a : Sql.PageFields) (d : Sql.Database)
    (q : Sql.CrawledPage) :
  In q (Sql.crawled_pages (Sql.add_crawled_page_body utcnow a d)) ->
  In q (Sql.crawled_pages d) \/ q = Sql.upserted utcnow a d.
Proof.
  unfold Sql.add_crawled_page_body, Sql.upserted, Sql.get_crawled_page.
  destruct (Sql.first_by_url (Sql.f_url a) (Sql.crawled_pages d)) as [p|] eqn:E; simpl.
  - intros Hq. destruct (update_first_in _ _ _ _ _ E Hq); auto.
  - intros [?|[<-|[]]]%in_app_or; auto.
Qed.

(** a result with [image_success] is a successful crawl whose download
    reported success *)
Lemma image_success_needs_download (env : PageEnv) (url : string) (w : World) :
  forall res, (crawl_npc_page env url w).2 = Ok res -> image_success res = true ->
    html_success res = true /\
    exists dl, downloaded env = Ok dl /\ success dl = true.
Proof.
  intros res.
  destruct (extract_npc_name_from_url hc unquote url) as [name|e1] eqn:Hn;
    [|by destruct (crawl_npc_page_not_started env url w) as [e ->]; eauto].
  destruct (url_to_filename hc url (Some "html")) as [fn|e2] eqn:Hfn;
    [|by destruct (crawl_npc_page_not_started env url w) as [e ->]; eauto].
  rewrite (crawl_npc_page_started env url name fn w Hn Hfn). unfold try_except.
  pose proof (crawl_npc_page_try_cases env url name w) as (_ & _ & _ & Hok).
  destruct (crawl_npc_page_try env url name w) as [w1 [res'|e]]; simpl in *.
  + destruct (Hok res' eq_refl)
      as (html & path & size & ex & loc & w2 & _ & _ & Hex & Hb & _ & _ & _ & ->).
    intros [= <-]. simpl. intros Hhi. split; [done|].
    pose proof (image_branch_cases env url name ex w) as (_ & _ & _ & _ & Hloc).
    rewrite Hb in Hloc.
    destruct (Hloc loc eq_refl Hhi) as (_ & img & dl & fn' & _ & _ & Hdl & Hs & _).
    eauto.
  + unfold bind, add_crawled_page, Sql.add_crawled_page, Sql.get_session,
      mark_failed, with_redis, ret.
    destruct (is_FetchError e); [destruct (db_fault env)|]; simpl;
      intros [= <-]; done.
Qed.

(** C6: every record in the table after [crawl_npc_page] is a record
    that was there before, or has [has_image] false, or has image status
    ["success"] and carries the file name that [url_to_filename] derived
    from the image URL after a download that reported success.  So the
    invariant "[has_image] implies status success and a file name" is kept,
    and a result with [image_success] comes only from that branch. *)
Theorem has_image_implies_downloaded (env : PageEnv) (url : string) (w : World) :
  let out := crawl_npc_page env url w in
  (forall q, In q (Sql.crawled_pages (db out.1)) ->
     In q (Sql.crawled_pages (db w)) \/ Sql.has_image q = false \/
     (Sql.image_status q = Some "success" /\
      exists img dl fn,
        extracted env = Ok (mkExtraction (Some img) true) /\
        downloaded env = Ok dl /\ success dl = true /\
        url_to_filename hc img None = Ok fn /\
        Sql.image_filename q = Some fn)) /\
  (Forall image_invariant (Sql.crawled_pages (db w)) ->
   Forall image_invariant (Sql.crawled_pages (db out.1))) /\
  (forall res, out.2 = Ok res -> image_success res = true ->
     html_success res = true /\
     exists dl, downloaded env = Ok dl /\ success dl = true).
Proof.
  intros out.
  assert (forall q, In q (Sql.crawled_pages (db out.1)) ->
     In q (Sql.crawled_pages (db w)) \/ Sql.has_image q = false \/
     (Sql.image_status q = Some "success" /\
      exists img dl fn,
        extracted env = Ok (mkExtraction (Some img) true) /\
        downloaded env = Ok dl /\ success dl = true /\
        url_to_filename hc img None = Ok fn /\
        Sql.image_filename q = Some fn)) as Hrows.
  { subst out.
    destruct (extract_npc_name_from_url hc unquote url) as [name|e1] eqn:Hn;
      [|by destruct (crawl_npc_page_not_started env url w) as [e ->]; eauto].
    destruct (url_to_filename hc url (Some "html")) as [fn|e2] eqn:Hfn;
      [|by destruct (crawl_npc_page_not_started env url w) as [e ->]; eauto].
    rewrite (crawl_npc_page_started env url name fn w Hn Hfn). unfold try_except.
    pose proof (crawl_npc_page_try_cases env url name w) as (_ & _ & Hraise & Hok).
    destruct (crawl_npc_page_try env url name w) as [w1 [res|e]]; simpl in *.
    - destruct (Hok res eq_refl)
        as (html & path & size & ex & loc & w2 & _ & _ & Hex & Hb & _ & Hdb & _ & _).
      rewrite Hdb. intros q Hq.
      apply add_crawled_page_body_rows in Hq as [Hq| ->]; [auto|]. right.
      pose proof (image_branch_cases env url name ex w) as (_ & _ & _ & _ & Hloc).
      rewrite Hb in Hloc. specialize (Hloc loc eq_refl).
      destruct (upserted_fields utcnow (success_fields url name path size ex loc) (db w))
        as (_ & _ & _ & Hhi & _ & _ & Hif & His).
      simpl in Hhi, Hif, His. rewrite Hhi.
      destruct (l_has_image loc); [right|by left].
      destruct (Hloc eq_refl) as (Hst & img & dl & fn' & Hiu & Hfd & Hdl & Hs & _ & Hfn' & Hlf & Ht).
      rewrite Hst in His. rewrite Hlf in Hif. split; [by apply His|].
      exists img, dl, fn'. destruct ex as [iu fd]. simpl in *. subst iu fd.
      repeat split; try done. by apply Hif.
    - destruct (Hraise e eq_refl) as [Hdb _].
      unfold bind, add_crawled_page, Sql.add_crawled_page, Sql.get_session,
        mark_failed, with_redis, ret.
      destruct (is_FetchError e); [destruct (db_fault env)|]; simpl; rewrite ?Hdb; auto.
      intros q Hq. apply add_crawled_page_body_rows in Hq as [Hq| ->]; [auto|].
      right. left.
      by destruct (upserted_fields utcnow (failed_fields url name fn) (db w))
        as (_ & _ & _ & Hhi & _). }
  split; [exact Hrows|]. split.
  - intros Hall. apply List.Forall_forall. intros q Hq.
    destruct (Hrows q Hq) as [Hold|[Hno|(Hst & img & dl & fn & _ & _ & _ & _ & Hfn)]].
    + by eapply (proj1 (List.Forall_forall _ _) Hall).
    + intros Hhi. congruence.
    + intros _. split; [done|]. by rewrite Hfn.
  - exact (image_success_needs_download env url w).
Qed.

Lemma pages_with_cons (p : CrawlNPCResult -> bool) (url : string) (res : CrawlNPCResult)
    (pages : list (string * CrawlNPCResult)) :
  pages_with p ((url, res) :: pages) = (if p res then 1 else 0) + pages_with p pages.
Proof.
  unfold pages_with. cbn [List.filter snd]. destruct (p res); cbn [length]; lia.
Qed.

Lemma pages_with_split (p : CrawlNPCResult -> bool) (pages : list (string * CrawlNPCResult)) :
  pages_with p pages + pages_with (fun r => negb (p r)) pages = Z.of_nat (length pages).
Proof.
  induction pages as [|[url res] pages IH]; [done|].
  rewrite !pages_with_cons. cbn [length]. destruct (p res); cbn [negb]; lia.
Qed.

Lemma tallies_balanced (pages : list (string * CrawlNPCResult)) (stats : CrawlAllNPCsResult) :
  tallies pages stats -> balanced stats.
Proof.
  intros (H1 & H2 & H3 & H4 & H5). unfold balanced.
  rewrite H1, H2, H3, H4, H5. by rewrite !pages_with_split.
Qed.

(** The loop reaches a [break] (or an exception leaves it) within one
    iteration more than there are pending URLs. *)
Lemma crawl_all_loop_terminates (fuel : nat) :
  forall (max_npcs : option Z) (envs : nat -> PageEnv) (picks : nat -> nat) (i : nat)
         (acc : CrawlAllNPCsResult) (w : World),
  (size (URLManager.crawl_queue (redis w)) < fuel)%nat ->
  exists out,
    Crawler.crawl_all_loop hc unquote utcnow fuel max_npcs envs picks i acc w = Some out.
Proof.
  induction fuel as [|fuel IH]; intros max_npcs envs picks i acc w Hsize; [lia|].
  cbn [Crawler.crawl_all_loop].
  destruct (limit_reached max_npcs (total_npcs_crawled acc)); [by eexists|].
  destruct (get_next_url_spec (picks i) (redis w)) as [_ Hpop].
  destruct (URLManager.get_next_url (picks i) (redis w)) as [[url|] r]; simpl in *;
    [|by eexists].
  destruct (Py.truthy url); simpl; [|by eexists].
  destruct (Hpop url eq_refl) as [Hin Hq].
  pose proof (crawl_npc_page_keeps_queue (envs i) url (mkWorld r (db w))) as Hkeep.
  destruct (crawl_npc_page (envs i) url (mkWorld r (db w))) as [w2 [res|e]]; simpl in *;
    [|by eexists].
  destruct (IH max_npcs envs picks (S i) (count acc res) w2) as [[pages out] ->].
  - rewrite Hkeep, Hq.
    assert (size (URLManager.crawl_queue (redis w)) <> 0%nat) as Hnz.
    { intros Hz. apply size_empty_inv in Hz. set_solver. }
    rewrite size_difference by set_solver. rewrite size_singleton. lia.
  - by eexists.
Qed.

(** What the loop returns: the pages it lists were pending, each once,
    and are pending no more; each result is one that [crawl_npc_page]
    returned; when the loop returns statistics, every non-empty URL that
    has left the pending set is listed; and the totals are those of the
    start plus one count per listed page in each column. *)
Lemma crawl_all_loop_pages (fuel : nat) :
  forall (max_npcs : option Z) (envs : nat -> PageEnv) (picks : nat -> nat) (i : nat)
         (acc : CrawlAllNPCsResult) (w w' : World)
         (pages : list (string * CrawlNPCResult)) (out : result CrawlAllNPCsResult),
  Crawler.crawl_all_loop hc unquote utcnow fuel max_npcs envs picks i acc w
    = Some (pages, (w', out)) ->
  NoDup pages.*1 /\
  (forall url, url ∈ pages.*1 -> url ∈ URLManager.crawl_queue (redis w)) /\
  (forall url, url ∈ URLManager.crawl_queue (redis w') ->
     url ∈ URLManager.crawl_queue (redis w) /\ url ∉ pages.*1) /\
  (forall url res, In (url, res) pages ->
     exists j w0, (crawl_npc_page (envs j) url w0).2 = Ok res) /\
  (forall stats url, out = Ok stats ->
     url ∈ URLManager.crawl_queue (redis w) ->
     url ∉ URLManager.crawl_queue (redis w') ->
     Py.truthy url = true -> url ∈ pages.*1) /\
  (forall stats, out = Ok stats ->
     total_npcs_crawled stats = total_npcs_crawled acc + Z.of_nat (length pages) /\
     total_successful stats = total_successful acc + pages_with html_success pages /\
     total_failed stats
       = total_failed acc + pages_with (fun r => negb (html_success r)) pages /\
     total_images_downloaded stats
       = total_images_downloaded acc + pages_with image_success pages /\
     total_image_failures stats
       = total_image_failures acc + pages_with (fun r => negb (image_success r)) pages).
Proof.
  induction fuel as [|fuel IH]; intros max_npcs envs picks i acc w w' pages out Hrun; [done|].
  cbn [Crawler.crawl_all_loop] in Hrun.
  assert (forall a : CrawlAllNPCsResult,
            total_npcs_crawled a = total_npcs_crawled a + Z.of_nat (length (@nil (string * CrawlNPCResult))) /\
            total_successful a = total_successful a + pages_with html_success [] /\
            total_failed a = total_failed a + pages_with (fun r => negb (html_success r)) [] /\
            total_images_downloaded a = total_images_downloaded a + pages_with image_success [] /\
            total_image_failures a
              = total_image_failures a + pages_with (fun r => negb (image_success r)) [])
    as Hnil by (intros a; unfold pages_with; cbn; lia).
  destruct (limit_reached max_npcs (total_npcs_crawled acc)).
  { injection Hrun as <- <- <-. split; [constructor|]. split; [set_solver|].
    split; [set_solver|]. split; [done|]. split; [by intros|]. by intros stats [= <-]. }
  destruct (get_next_url_spec (picks i) (redis w)) as [Hsub Hpop].
  pose proof (get_next_url_none (picks i) (redis w)) as Hnone.
  destruct (URLManager.get_next_url (picks i) (redis w)) as [[url|] r] eqn:Eg;
    cbn [fst snd] in *.
  2:{ injection Hrun as <- <- <-. cbn [redis]. split; [constructor|]. split; [set_solver|].
      split; [set_solver|]. split; [done|]. split; [|by intros stats [= <-]].
      intros stats u _ Hu Hnu. rewrite (Hnone r eq_refl) in Hnu. done. }
  destruct (Hpop url eq_refl) as (Hin & Hq).
  destruct (Py.truthy url) eqn:Hurl; cbn [negb] in Hrun.
  2:{ injection Hrun as <- <- <-. cbn [redis]. split; [constructor|]. split; [set_solver|].
      split; [|split; [done|split; [|by intros stats [= <-]]]].
      - intros u Hu. rewrite Hq in Hu. set_solver.
      - intros stats u _ Hu Hnu Ht. rewrite Hq in Hnu.
        destruct (decide (u = url)) as [->|Hne]; [congruence|]. set_solver. }
  pose proof (crawl_npc_page_keeps_queue (envs i) url (mkWorld r (db w))) as Hkeep.
  destruct (crawl_npc_page (envs i) url (mkWorld r (db w))) as [w2 [res|e]] eqn:Ec;
    cbn [fst snd redis] in *.
  2:{ injection Hrun as <- <- <-. split; [constructor|]. split; [set_solver|].
      split; [|split; [done|split; [by intros stats u [=]|by intros stats [=]]]].
      intros u Hu. rewrite Hkeep, Hq in Hu. set_solver. }
  destruct (Crawler.crawl_all_loop hc unquote utcnow fuel max_npcs envs picks (S i)
              (count acc res) w2) as [[pages' [w3 out']]|] eqn:Erest; [|done].
  cbn [and_then] in Hrun. injection Hrun as <- <- <-.
  destruct (IH _ _ _ _ _ _ _ _ _ Erest) as (Hnd & Hfrom & Hleft & Hres & Hall & Hstats).
  rewrite Hkeep, Hq in Hfrom, Hleft, Hall. cbn [fmap list_fmap fst].
  split; [|split; [|split; [|split; [|split]]]].
  - apply NoDup_cons. split; [|done]. intros Hu. apply Hfrom in Hu. set_solver.
  - intros u [->|Hu]%elem_of_cons; [done|]. apply Hfrom in Hu. set_solver.
  - intros u Hu. destruct (Hleft u Hu) as [Hu1 Hu2]. split; [set_solver|].
    intros [->|Hu3]%elem_of_cons; [set_solver|done].
  - intros u res' [[= <- <-]|Hin']; [|by apply Hres].
    exists i, (mkWorld r (db w)). by rewrite Ec.
  - intros stats u Hout Hu Hnu Ht.
    destruct (decide (u = url)) as [->|Hne]; [by left|].
    right. apply (Hall stats u Hout); [set_solver|done|done].
  - intros stats Hout. destruct (Hstats stats Hout) as (H1 & H2 & H3 & H4 & H5).
    rewrite !pages_with_cons. cbn [length]. unfold count in *. cbn in *.
    destruct (html_success res), (image_success res); cbn [negb]; lia.
Qed.

(** C10: [crawl_all_npcs] always ends.  The pages it crawled are URLs
    that were pending, each crawled once and pending no more, and each
    with a result that [crawl_npc_page] returned; when it returns
    statistics, every non-empty URL that has left the pending set is among
    them.  The statistics count exactly these pages: [total_npcs_crawled]
    is their number, [total_successful] and [total_failed] the numbers of
    those with and without [html_success], [total_images_downloaded] and
    [total_image_failures] the numbers of those with and without
    [image_success]; so [total_npcs_crawled = total_successful +
    total_failed] and [total_images_downloaded + total_image_failures =
    total_npcs_crawled].  A page whose crawl failed never has
    [image_success], and a page has it only after a download that reported
    success; every other page is counted in [total_image_failures]. *)
Theorem crawl_all_npcs_totals_balance (max_npcs : option Z) (envs : nat -> PageEnv)
    (picks : nat -> nat) (w : World) :
  exists pages w' out,
    Crawler.crawl_all_npcs hc unquote utcnow max_npcs envs picks w = Some (pages, (w', out)) /\
    NoDup pages.*1 /\
    (forall url res, In (url, res) pages ->
       url ∈ URLManager.crawl_queue (redis w) /\
       (url ∉ URLManager.crawl_queue (redis w')) /\
       exists j w0,
         (crawl_npc_page (envs j) url w0).2 = Ok res /\
         (html_success res = false -> image_success res = false) /\
         (image_success res = true ->
            exists dl, downloaded (envs j) = Ok dl /\ success dl = true)) /\
    (forall stats, out = Ok stats ->
       tallies pages stats /\ balanced stats /\
       (forall url, url ∈ URLManager.crawl_queue (redis w) ->
          url ∉ URLManager.crawl_queue (redis w') ->
          Py.truthy url = true -> url ∈ pages.*1)).
Proof.
  unfold Crawler.crawl_all_npcs.
  destruct (crawl_all_loop_terminates (S (size (URLManager.crawl_queue (redis w))))
              max_npcs envs picks 0%nat (mkCrawlAll 0 0 0 0 0) w ltac:(lia))
    as [[pages [w' out]] Hrun].
  exists pages, w', out. split; [done|].
  destruct (crawl_all_loop_pages _ _ _ _ _ _ _ _ _ _ Hrun)
    as (Hnd & Hfrom & Hleft & Hres & Hall & Hstats).
  split; [done|]. split.
  - intros url res Hin.
    assert (url ∈ pages.*1) as Hu.
    { apply list_elem_of_fmap. exists (url, res). split; [done|]. by apply list_elem_of_In. }
    split; [by apply Hfrom|]. split; [intros Hq; by destruct (Hleft url Hq)|].
    destruct (Hres url res Hin) as (j & w0 & Hr). exists j, w0. split; [done|].
    split.
    + intros Hhtml. destruct (image_success res) eqn:Himg; [|done].
      destruct (image_success_needs_download (envs j) url w0 res Hr Himg). congruence.
    + intros Himg. by destruct (image_success_needs_download (envs j) url w0 res Hr Himg).
  - intros stats Hout. destruct (Hstats stats Hout) as (H1 & H2 & H3 & H4 & H5).
    cbn in H1, H2, H3, H4, H5.
    assert (tallies pages stats) as Ht by (unfold tallies; repeat split; lia).
    split; [done|]. split; [by eapply tallies_balanced|].
    intros url. by apply (Hall stats url Hout).
Qed.

End CrawlerFacts.

(** ** The pipeline on concrete pages *)

Lemma image_download_failure_is_soft_witness :
  let out := Crawler.crawl_npc_page accept_all_hosts no_escapes ticking_clock
               env_image_download_fails hans_url fresh_world in
  out.2 = Ok (Crawler.mkCrawlNPCResult true false None) /\
  (exists p, Sql.rows_of hans_url (Crawler.db out.1) = [p] /\
             Sql.status p = "success" /\ Sql.image_status p = Some "found" /\
             Sql.has_image p = false /\ Sql.image_url p = Some hans_image /\
             Sql.html_file_size p = 30) /\
  URLManager.model_dump_json (URLManager.mkImageData hans_image "Hans" hans_url)
    ∈ URLManager.image_retry_queue (Crawler.redis out.1) /\
  hans_url ∈ URLManager.visited_urls (Crawler.redis out.1) /\
  URLManager.failed_urls (Crawler.redis out.1) = URLManager.failed_urls (Crawler.redis fresh_world).
Proof.
  apply (image_download_failure_is_soft accept_all_hosts no_escapes ticking_clock
           env_image_download_fails hans_url "Hans" "Hans.html"
           "<html><body>Hans</body></html>" "data/raw_html/Hans.html" 30 hans_image
           (Crawler.mkDownload false None (Some "ReadTimeout")) fresh_world);
    try (vm_compute; reflexivity).
  apply NoDup_nil_2.
Defined.

Lemma crawl_npc_page_failure_branches_witness :
  (let out := Crawler.crawl_npc_page_under accept_all_hosts no_escapes ticking_clock
                Crawler.redis_answers env_fetch_error hans_url fresh_world in
   out.2 = Ok (Crawler.mkCrawlNPCResult false false (Some "HTTP error: 404")) /\
   (exists p, Sql.rows_of hans_url (Crawler.db out.1) = [p] /\
              Sql.status p = "failed" /\ Sql.html_file_size p = 0) /\
   URLManager.failed_urls (Crawler.redis out.1) !! hans_url = Some "HTTP error: 404") /\
  (let out := Crawler.crawl_npc_page_under accept_all_hosts no_escapes ticking_clock
                Crawler.redis_answers env_save_fails hans_url fresh_world in
   out.2 = Ok (Crawler.mkCrawlNPCResult false false (Some "Failed to save HTML: disk full")) /\
   URLManager.failed_urls (Crawler.redis out.1) !! hans_url
     = Some "Failed to save HTML: disk full" /\
   Crawler.db out.1 = Crawler.db fresh_world).
Proof.
  split.
  - destruct (crawl_npc_page_failure_branches accept_all_hosts no_escapes ticking_clock
                Crawler.redis_answers env_fetch_error hans_url fresh_world) as [_ H].
    destruct (H "Hans" "Hans.html" ltac:(vm_compute; reflexivity)
                ltac:(vm_compute; reflexivity)) as [H1 _].
    destruct (H1 "HTTP error: 404" eq_refl eq_refl eq_refl (NoDup_nil_2 (A:=string)))
      as (H2 & H3 & H4 & _).
    split; [exact H2|]. split; [exact H3|exact H4].
  - destruct (crawl_npc_page_failure_branches accept_all_hosts no_escapes ticking_clock
                Crawler.redis_answers env_save_fails hans_url fresh_world) as [_ H].
    destruct (H "Hans" "Hans.html" ltac:(vm_compute; reflexivity)
                ltac:(vm_compute; reflexivity)) as [_ H1].
    destruct (H1 (IOError "Failed to save HTML: disk full") fresh_world eq_refl eq_refl eq_refl)
      as (H2 & H3 & _ & H4 & _).
    split; [exact H2|]. split; [exact H3|exact H4].
Defined.

(** C5, the claim as worded fails.  A pending URL that [urlparse]
    rejects makes the pipeline raise and is not marked failed; and when
    Redis fails at [mark_visited], the page ends in the generic handler,
    marked failed, with its ["success"] record written. *)
Lemma crawl_npc_page_unmarked_or_recorded_failure :
  (let out := Crawler.crawl_npc_page_under accept_all_hosts no_escapes ticking_clock
                Crawler.redis_answers env_no_image "http://[x" fresh_world in
   out = (fresh_world, Raise (ValueError "Invalid IPv6 URL")) /\
   URLManager.failed_urls (Crawler.redis out.1) !! "http://[x" = None) /\
  (let out := Crawler.crawl_npc_page_under accept_all_hosts no_escapes ticking_clock
                redis_lost_at_mark_visited env_no_image hans_url fresh_world in
   out.2 = Ok (Crawler.mkCrawlNPCResult false false (Some "Connection closed by server.")) /\
   URLManager.failed_urls (Crawler.redis out.1) !! hans_url
     = Some "Connection closed by server." /\
   exists p, Sql.rows_of hans_url (Crawler.db out.1) = [p] /\ Sql.status p = "success").
Proof.
  split.
  - split; [vm_compute; reflexivity|]. apply lookup_empty.
  - split; [vm_compute; reflexivity|]. split; [vm_compute; reflexivity|].
    eexists. split; vm_compute; reflexivity.
Qed.

Lemma has_image_implies_downloaded_witness :
  let out := Crawler.crawl_npc_page accept_all_hosts no_escapes ticking_clock
               env_image_downloaded hans_url fresh_world in
  out.2 = Ok (Crawler.mkCrawlNPCResult true true None) /\
  exists q, Sql.crawled_pages (Crawler.db out.1) = [q] /\
            Sql.has_image q = true /\
            Sql.image_status q = Some "success" /\
            Sql.image_filename q = Some "Hans.png".
Proof.
  intros out.
  destruct (has_image_implies_downloaded accept_all_hosts no_escapes ticking_clock
              env_image_downloaded hans_url fresh_world) as (Hrows & _ & _).
  fold out in Hrows.
  split; [vm_compute; reflexivity|].
  assert (exists q, Sql.crawled_pages (Crawler.db out.1) = [q] /\
                    Sql.has_image q = true /\ Sql.image_filename q = Some "Hans.png")
    as (q & Hq & Hhi & Hfn) by (eexists; vm_compute; repeat split; reflexivity).
  exists q. split; [exact Hq|]. split; [exact Hhi|]. split; [|exact Hfn].
  destruct (Hrows q) as [[]|[Hno|[Hst _]]].
  - rewrite Hq. by left.
  - congruence.
  - exact Hst.
Defined.

Lemma crawl_all_npcs_totals_balance_witness :
  let run := Crawler.crawl_all_npcs accept_all_hosts no_escapes ticking_clock None
               envs_one_image_one_failure (fun _ => 0%nat) two_pending in
  (snd <$> (snd <$> run)) = Some (Ok (Crawler.mkCrawlAll 2 1 1 1 1)) /\
  exists pages w' out, run = Some (pages, (w', out)) /\
    length pages = 2%nat /\
    forall stats, out = Ok stats -> tallies pages stats /\ balanced stats.
Proof.
  intros run. split; [vm_compute; reflexivity|].
  destruct (crawl_all_npcs_totals_balance accept_all_hosts no_escapes ticking_clock None
              envs_one_image_one_failure (fun _ => 0%nat) two_pending)
    as (pages & w' & out & Hrun & _ & _ & Hstats).
  exists pages, w', out. split; [exact Hrun|].
  split; [|intros stats Hs; destruct (Hstats stats Hs) as (H1 & H2 & _); by split].
  assert (fst <$> run = Some pages) as Hp by (unfold run; by rewrite Hrun).
  vm_compute in Hp. injection Hp as <-. reflexivity.
Defined.

(** ** The list page parser *)

Section ParserFacts.

Import ListPage.

Context (hc : Urllib.HostChecks) (base_url : string).
Context (BeautifulSoup : string -> result (list Bs4.node)).

Lemma join_all_spec (hrefs links : list string) :
  join_all hc base_url hrefs = Ok links <->
  Forall2 (fun href full => Urllib.urljoin hc base_url href = Ok full) hrefs links.
Proof.
  revert links. induction hrefs as [|h hrefs IH]; intros links; simpl.
  - split; [intros [= <-]; constructor|intros Hf; by inversion Hf].
  - destruct (Urllib.urljoin hc base_url h) as [full|e] eqn:Eh; simpl.
    + destruct (join_all hc base_url hrefs) as [rest|e] eqn:Er; simpl.
      * split.
        -- intros [= <-]. constructor; [done|]. by apply IH.
        -- intros Hf. inversion Hf as [|? l ? ls Hh Hrest]; subst.
           apply IH in Hrest. congruence.
      * split; [done|]. intros Hf. inversion Hf as [|? l ? ls Hh Hrest]; subst.
        apply IH in Hrest. congruence.
    + split; [done|]. intros Hf. inversion Hf; congruence.
Qed.

Lemma join_all_returns (hrefs : list string) :
  (forall href, In href hrefs -> returns (Urllib.urljoin hc base_url href)) ->
  returns (join_all hc base_url hrefs).
Proof.
  induction hrefs as [|h hrefs IH]; intros Hall; simpl; [by eexists|].
  destruct (Hall h (or_introl eq_refl)) as [full ->]. simpl.
  destruct IH as [rest ->]; [intros; apply Hall; by right|]. by eexists.
Qed.

Lemma join_all_raises (hrefs : list string) (e : exn) :
  join_all hc base_url hrefs = Raise e ->
  exists href, In href hrefs /\ Urllib.urljoin hc base_url href = Raise e.
Proof.
  induction hrefs as [|h hrefs IH]; simpl; [done|].
  destruct (Urllib.urljoin hc base_url h) as [full|e'] eqn:Eh; simpl.
  - destruct (join_all hc base_url hrefs) as [rest|e'] eqn:Er; simpl; [done|].
    intros [= ->]. destruct (IH eq_refl) as (href & Hin & Hr). eauto.
  - intros [= ->]. eauto.
Qed.

(** C8 (as amended): when the HTML parser rejects the markup, the list
    page parser raises the parser's exception.  On a tree without a
    category container it returns no links and no next page, whatever else
    the page holds.  On a tree with two (or more) containers, a returned
    result lists exactly the hrefs of the second container's list items,
    each joined to the base URL, and its next page is the joined href of
    the "next page" anchor when there is one, [None] otherwise.  The
    parser returns exactly when [urljoin] accepts every href it resolves,
    the links of the chosen container and the href of the "next page"
    anchor, and an exception it raises is the one [urljoin] raises on one
    of these hrefs. *)
Theorem parse_npc_list_page_second_container (html_content : string) :
  let parsed := parse_npc_list_page hc base_url BeautifulSoup html_content in
  (forall e, BeautifulSoup html_content = Raise e -> parsed = Raise e) /\
  (forall soup, BeautifulSoup html_content = Ok soup ->
     (category_divs soup = [] -> parsed = Ok (mkListPage [] None)) /\
     (forall d0 d1 rest r,
        category_divs soup = d0 :: d1 :: rest -> parsed = Ok r ->
        Forall2 (fun href full => Urllib.urljoin hc base_url href = Ok full)
                (link_hrefs d1) (npc_urls r) /\
        match next_page_href soup with
        | Some href =>
            exists u, Urllib.urljoin hc base_url href = Ok u /\ next_page_url r = Some u
        | None => next_page_url r = None
        end) /\
     (forall div,
        content_div (category_divs soup) = Some div ->
        (returns parsed <->
         (forall href, In href (link_hrefs div) -> returns (Urllib.urljoin hc base_url href)) /\
         (forall href, next_page_href soup = Some href ->
            returns (Urllib.urljoin hc base_url href))) /\
        (forall e, parsed = Raise e ->
           exists href, (In href (link_hrefs div) \/ next_page_href soup = Some href) /\
                        Urllib.urljoin hc base_url href = Raise e))).
Proof.
  intros parsed. subst parsed. unfold parse_npc_list_page.
  split; [by intros e ->|]. intros soup ->. cbn [mbind result_bind]. unfold parse_soup.
  split; [by intros ->|]. split.
  - intros d0 d1 rest r ->. simpl.
    destruct (join_all hc base_url (link_hrefs d1)) as [links|e] eqn:Ej; simpl; [|done].
    apply join_all_spec in Ej.
    destruct (next_page_href soup) as [href|]; simpl.
    + destruct (Urllib.urljoin hc base_url href) as [u|e] eqn:Eu; simpl; [|done].
      intros [= <-]. simpl. eauto.
    + by intros [= <-].
  - intros div ->. split; [split|].
    + intros [r Hr].
      destruct (join_all hc base_url (link_hrefs div)) as [links|e] eqn:Ej; simpl in Hr;
        [|done].
      apply join_all_spec in Ej. split.
      * intros href Hin. clear -Ej Hin.
        induction Ej as [|h l hs ls Hh _ IH]; [done|].
        destruct Hin as [<-|Hin]; [by eexists|by apply IH].
      * intros href Hn. rewrite Hn in Hr. simpl in Hr.
        destruct (Urllib.urljoin hc base_url href) as [u|e]; [by eexists|done].
    + intros [Hlinks Hnext].
      destruct (join_all_returns (link_hrefs div) Hlinks) as [links ->]. simpl.
      destruct (next_page_href soup) as [href|]; simpl; [|by eexists].
      destruct (Hnext href eq_refl) as [u ->]. simpl. by eexists.
    + intros e.
      destruct (join_all hc base_url (link_hrefs div)) as [links|e'] eqn:Ej; simpl.
      * destruct (next_page_href soup) as [href|]; simpl; [|done].
        destruct (Urllib.urljoin hc base_url href) as [u|e'] eqn:Eu; simpl; [done|].
        intros [= ->]. eauto.
      * intros [= ->]. destruct (join_all_raises _ _ Ej) as (href & Hin & Hr). eauto.
Qed.

End ParserFacts.

Lemma parse_npc_list_page_second_container_witness :
  let parsed := ListPage.parse_npc_list_page accept_all_hosts wiki_base_url
                  parse_fixture category_page_html in
  parsed = Ok (ListPage.mkListPage
                 ["https://oldschool.runescape.wiki/w/1337mage43";
                  "https://oldschool.runescape.wiki/w/50%25_Luke"]
                 (Some "https://oldschool.runescape.wiki/w/Category:Non-player_characters?pagefrom=A")) /\
  Forall2 (fun href full => Urllib.urljoin accept_all_hosts wiki_base_url href = Ok full)
          ["/w/1337mage43"; "/w/50%25_Luke"]
          ["https://oldschool.runescape.wiki/w/1337mage43";
           "https://oldschool.runescape.wiki/w/50%25_Luke"].
Proof.
  intros parsed.
  assert (parsed = Ok (ListPage.mkListPage
                 ["https://oldschool.runescape.wiki/w/1337mage43";
                  "https://oldschool.runescape.wiki/w/50%25_Luke"]
                 (Some "https://oldschool.runescape.wiki/w/Category:Non-player_characters?pagefrom=A")))
    as Hp by (vm_compute; reflexivity).
  split; [exact Hp|].
  destruct (parse_npc_list_page_second_container accept_all_hosts wiki_base_url
              parse_fixture category_page_html) as (_ & H).
  destruct (H category_page eq_refl) as (_ & H2 & _).
  exact (proj1 (H2 _ _ _ _ eq_refl Hp)).
Defined.

(** C8, the claim as worded fails: on a page whose list item links to
    ['http://[x'] the parser raises the [ValueError] of [urljoin], and on
    markup that [html.parser] rejects it raises the parser's exception. *)
Lemma parse_npc_list_page_raises_on_bad_href :
  ListPage.parse_npc_list_page accept_all_hosts wiki_base_url parse_fixture bracket_page_html
  = Raise (ValueError "Invalid IPv6 URL") /\
  ListPage.parse_npc_list_page accept_all_hosts wiki_base_url parse_fixture marked_section_html
  = Raise (Exception "AssertionError: unknown status keyword 'foo ' in marked section").
Proof. split; vm_compute; reflexivity. Qed.

(** ** More about the frontier *)

Section FrontierMore.

Import URLManager.

Lemma redis_eta (r : Redis) :
  mkRedis (crawl_queue r) (visited_urls r) (failed_urls r) (image_retry_queue r) = r.
Proof. by destruct r. Qed.

Lemma add_to_queue_cases (url : string) (r : Redis) :
  let out := add_to_queue url r in
  out.1 = bool_decide ((url ∉ visited_urls r) /\ (url ∉ crawl_queue r)) /\
  (out.1 = true -> crawl_queue out.2 = {[url]} ∪ crawl_queue r) /\
  (out.1 = false -> out.2 = r) /\
  Z.of_nat (size (crawl_queue out.2))
    = Z.of_nat (size (crawl_queue r)) + (if out.1 then 1 else 0) /\
  visited_urls out.2 = visited_urls r /\
  failed_urls out.2 = failed_urls r /\
  image_retry_queue out.2 = image_retry_queue r.
Proof.
  unfold add_to_queue, sadd.
  destruct (is_visited url r) eqn:Hv; simpl.
  - apply is_visited_true in Hv. rewrite bool_decide_eq_false_2 by tauto.
    repeat split; try done. lia.
  - apply is_visited_false in Hv.
    destruct (decide (url ∈ crawl_queue r)) as [Hin|Hout]; simpl.
    + rewrite bool_decide_eq_false_2 by tauto.
      assert ({[url]} ∪ crawl_queue r = crawl_queue r) as -> by set_solver.
      rewrite redis_eta. repeat split; try done. lia.
    + rewrite bool_decide_eq_true_2 by tauto.
      repeat split; try done.
      rewrite size_union by set_solver. rewrite size_singleton. lia.
Qed.

(** X1: [add_to_queue] returns true exactly when the URL is neither
    visited nor pending; the pending set then gains exactly this URL and
    grows by one, otherwise the store is unchanged.  It never writes the
    visited set, the failed hash or the image retry set. *)
Theorem add_to_queue_reports_growth (url : string) (r : Redis) :
  let out := add_to_queue url r in
  out.1 = bool_decide ((url ∉ visited_urls r) /\ (url ∉ crawl_queue r)) /\
  (out.1 = true -> crawl_queue out.2 = {[url]} ∪ crawl_queue r) /\
  (out.1 = false -> out.2 = r) /\
  Z.of_nat (size (crawl_queue out.2))
    = Z.of_nat (size (crawl_queue r)) + (if out.1 then 1 else 0) /\
  visited_urls out.2 = visited_urls r /\
  failed_urls out.2 = failed_urls r /\
  image_retry_queue out.2 = image_retry_queue r.
Proof. apply add_to_queue_cases. Qed.

Lemma is_visited_add_to_queue (u url : string) (r : Redis) :
  is_visited u (add_to_queue url r).2 = is_visited u r.
Proof.
  unfold add_to_queue, sadd, is_visited. by destruct (bool_decide (url ∈ visited_urls r)).
Qed.

Lemma unvisited_cons (url : string) (rest : list string) (r : Redis) :
  unvisited (url :: rest) r
  = (if is_visited url r then ∅ else {[url]}) ∪ unvisited rest r.
Proof.
  unfold unvisited. simpl. destruct (is_visited url r); simpl; set_solver.
Qed.

Lemma unvisited_same_visited (urls : list string) (r r' : Redis) :
  visited_urls r' = visited_urls r -> unvisited urls r' = unvisited urls r.
Proof.
  intros Hv. unfold unvisited. f_equal. apply List.filter_ext. intros u.
  unfold is_visited. by rewrite Hv.
Qed.

(** what [add_multiple_to_queue] leaves and returns *)
Lemma add_multiple_to_queue_spec (urls : list string) (r : Redis) :
  add_multiple_to_queue urls r
  = (Z.of_nat (size (unvisited urls r ∖ crawl_queue r)),
     mkRedis (unvisited urls r ∪ crawl_queue r) (visited_urls r) (failed_urls r)
             (image_retry_queue r)).
Proof.
  unfold add_multiple_to_queue, unvisited.
  destruct urls as [|u urls]; cbv beta iota zeta.
  { simpl. rewrite difference_disjoint_L by set_solver. rewrite size_empty.
    by rewrite (left_id_L ∅ (∪)), redis_eta. }
  destruct (List.filter (fun url => negb (is_visited url r)) (u :: urls)) as [|x l];
    [|done].
  simpl. rewrite difference_disjoint_L by set_solver. rewrite size_empty.
  by rewrite (left_id_L ∅ (∪)), redis_eta.
Qed.

(** what the loop over [add_to_queue] leaves and counts *)
Lemma enqueue_each_spec (urls : list string) :
  forall (total : Z) (r : Redis),
  enqueue_each urls total r
  = (total + Z.of_nat (size (unvisited urls r ∖ crawl_queue r)),
     mkRedis (unvisited urls r ∪ crawl_queue r) (visited_urls r) (failed_urls r)
             (image_retry_queue r)).
Proof.
  induction urls as [|u urls IH]; intros total r.
  - simpl. unfold unvisited. simpl.
    rewrite difference_disjoint_L by set_solver. rewrite size_empty.
    rewrite (left_id_L ∅ (∪)), redis_eta. f_equal. lia.
  - cbn [enqueue_each]. rewrite unvisited_cons.
    destruct (is_visited u r) eqn:Hvis.
    + rewrite add_to_queue_visited by by apply is_visited_true.
      rewrite IH, !(left_id_L ∅ (∪)). done.
    + destruct (decide (u ∈ crawl_queue r)) as [Hin|Hout].
      * rewrite add_to_queue_pending by done. rewrite IH.
        assert (({[u]} ∪ unvisited urls r) ∪ crawl_queue r
                = unvisited urls r ∪ crawl_queue r) as -> by set_solver.
        assert (({[u]} ∪ unvisited urls r) ∖ crawl_queue r
                = unvisited urls r ∖ crawl_queue r) as -> by set_solver.
        done.
      * assert (add_to_queue u r
                = (true, mkRedis ({[u]} ∪ crawl_queue r) (visited_urls r) (failed_urls r)
                                 (image_retry_queue r))) as ->.
        { unfold add_to_queue, sadd. rewrite Hvis. by rewrite decide_False. }
        rewrite IH.
        set (r1 := mkRedis ({[u]} ∪ crawl_queue r) (visited_urls r) (failed_urls r)
                           (image_retry_queue r)).
        rewrite (unvisited_same_visited urls r r1) by done.
        subst r1. cbn [crawl_queue visited_urls failed_urls image_retry_queue].
        assert (({[u]} ∪ unvisited urls r) ∪ crawl_queue r
                = unvisited urls r ∪ ({[u]} ∪ crawl_queue r)) as -> by set_solver.
        f_equal.
        assert (({[u]} ∪ unvisited urls r) ∖ crawl_queue r
                = {[u]} ∪ (unvisited urls r ∖ ({[u]} ∪ crawl_queue r))) as ->.
        { apply set_eq. intros x.
          rewrite !elem_of_union, !elem_of_difference, !elem_of_union, !elem_of_singleton.
          destruct (decide (x = u)) as [->|?]; tauto. }
        rewrite (size_union (C:=gset string) {[u]}
                   (unvisited urls r ∖ ({[u]} ∪ crawl_queue r))) by set_solver.
        rewrite size_singleton. lia.
Qed.

(** X2: [add_multiple_to_queue] leaves the store in the state, and
    returns the count, that calling [add_to_queue] on each URL in turn and
    counting the [True] answers gives: the pending set gains the URLs of the
    list that are not visited, the count is the growth of the pending set,
    and nothing else is written.  On an empty list, or a list of visited
    URLs only, it returns 0 and changes nothing. *)
Theorem add_multiple_to_queue_is_the_loop (urls : list string) (r : Redis) :
  let out := add_multiple_to_queue urls r in
  enqueue_each urls 0 r = out /\
  crawl_queue out.2 = unvisited urls r ∪ crawl_queue r /\
  out.1 = Z.of_nat (size (crawl_queue out.2)) - Z.of_nat (size (crawl_queue r)) /\
  visited_urls out.2 = visited_urls r /\
  failed_urls out.2 = failed_urls r /\
  image_retry_queue out.2 = image_retry_queue r /\
  (unvisited urls r = ∅ -> out = (0, r)).
Proof.
  intros out. subst out. rewrite enqueue_each_spec, add_multiple_to_queue_spec.
  cbn [fst snd crawl_queue visited_urls failed_urls image_retry_queue].
  split; [done|]. split; [done|]. split; [|split; [done|split; [done|split; [done|]]]].
  - assert (unvisited urls r ∪ crawl_queue r = crawl_queue r ∪ unvisited urls r) as ->
      by set_solver.
    rewrite (size_union_alt (crawl_queue r) (unvisited urls r)). lia.
  - intros ->. rewrite difference_disjoint_L by set_solver. rewrite size_empty.
    by rewrite (left_id_L ∅ (∪)), redis_eta.
Qed.

Lemma get_next_url_cases (pick : nat) (r : Redis) :
  let out := get_next_url pick r in
  (out.1 = None <-> crawl_queue r = ∅) /\
  (crawl_queue r = ∅ -> out = (None, r)) /\
  (forall url, out.1 = Some url ->
     url ∈ crawl_queue r /\
     crawl_queue out.2 = crawl_queue r ∖ {[url]} /\
     S (size (crawl_queue out.2)) = size (crawl_queue r)) /\
  visited_urls out.2 = visited_urls r /\
  failed_urls out.2 = failed_urls r /\
  image_retry_queue out.2 = image_retry_queue r.
Proof.
  unfold get_next_url. pose proof (spop_spec pick (crawl_queue r)) as Hs.
  destruct (spop pick (crawl_queue r)) as [[x|] q]; simpl.
  - destruct Hs as [Hx ->]. split; [split; [done|set_solver]|].
    split; [set_solver|]. split; [|done].
    intros url [= <-]. split; [done|]. split; [done|].
    rewrite size_difference by set_solver. rewrite size_singleton.
    assert (size (crawl_queue r) <> 0%nat); [|lia].
    intros Hz. apply size_empty_inv in Hz. set_solver.
  - destruct Hs as [He ->]. split; [done|]. split; [|split; [done|done]].
    intros _. by rewrite redis_eta.
Qed.

(** X3: [get_next_url] returns [None] exactly on an empty pending set,
    and then changes nothing; otherwise it returns a pending URL, removes
    exactly that URL (the pending set shrinks by one) and writes no other
    key. *)
Theorem get_next_url_pops_one_pending_url (pick : nat) (r : Redis) :
  let out := get_next_url pick r in
  (out.1 = None <-> crawl_queue r = ∅) /\
  (crawl_queue r = ∅ -> out = (None, r)) /\
  (forall url, out.1 = Some url ->
     url ∈ crawl_queue r /\
     crawl_queue out.2 = crawl_queue r ∖ {[url]} /\
     S (size (crawl_queue out.2)) = size (crawl_queue r)) /\
  visited_urls out.2 = visited_urls r /\
  failed_urls out.2 = failed_urls r /\
  image_retry_queue out.2 = image_retry_queue r.
Proof. apply get_next_url_cases. Qed.

Lemma dequeue_many_spec (picks : nat -> nat) (n : nat) :
  forall (i : nat) (r : Redis),
  size (crawl_queue r) = n ->
  exists urls : list string,
    (dequeue_many picks i n r).1 = Some <$> urls /\
    NoDup urls /\
    list_to_set urls = crawl_queue r /\
    crawl_queue (dequeue_many picks i n r).2 = ∅.
Proof.
  induction n as [|n IH]; intros i r Hsize.
  - exists []. simpl. apply size_empty_inv in Hsize. repeat split; try done.
    + constructor.
    + set_solver.
    + set_solver.
  - cbn [dequeue_many].
    pose proof (get_next_url_cases (picks i) r) as (Hnone & _ & Hsome & _).
    destruct (get_next_url (picks i) r) as [[url|] r1]; simpl in *.
    + destruct (Hsome url eq_refl) as (Hin & Hq & Hsz).
      destruct (IH (S i) r1) as (urls & Hres & Hnd & Hset & Hempty); [lia|].
      destruct (dequeue_many picks (S i) n r1) as [l r2]. simpl in *.
      exists (url :: urls). rewrite Hres. split; [done|]. split; [|split; [|done]].
      * constructor; [|done]. intros Hu.
        assert (url ∈ crawl_queue r1) as Hu' by (rewrite <- Hset; set_solver).
        set_solver.
      * simpl. rewrite Hset, Hq. apply set_eq. intros x.
        rewrite elem_of_union, elem_of_difference, elem_of_singleton.
        destruct (decide (x = url)) as [->|?]; tauto.
    + destruct Hnone as [Hnone _]. rewrite (Hnone eq_refl), size_empty in Hsize. lia.
Qed.

(** X4: as many calls of [get_next_url] as there are pending URLs return
    each pending URL exactly once (no duplicate, no omission), whatever the
    server picks, and leave the pending set empty, so that the next call
    returns [None]. *)
Theorem get_next_url_drains_without_duplicates (picks : nat -> nat) (i : nat) (r : Redis) :
  let out := dequeue_many picks i (size (crawl_queue r)) r in
  exists urls : list string,
    out.1 = Some <$> urls /\
    NoDup urls /\
    list_to_set urls = crawl_queue r /\
    length urls = size (crawl_queue r) /\
    crawl_queue out.2 = ∅ /\
    forall pick, get_next_url pick out.2 = (None, out.2).
Proof.
  intros out.
  destruct (dequeue_many_spec picks (size (crawl_queue r)) i r eq_refl)
    as (urls & Hres & Hnd & Hset & Hempty).
  exists urls. repeat split; try done.
  - rewrite <- Hset. by rewrite size_list_to_set.
  - intros pick. by apply get_next_url_cases.
Qed.

(** X5: [mark_failed] keeps one reason per URL, the last one written: a
    second failure of the same URL replaces the reason and leaves the
    number of failed URLs as it is, a first failure adds one to it; the
    reasons of the other URLs, the pending set and the visited set are
    untouched. *)
Theorem mark_failed_last_write_wins (url error : string) (r : Redis) :
  let r' := mark_failed url error r in
  failed_urls r' !! url = Some error /\
  (forall other, other <> url -> failed_urls r' !! other = failed_urls r !! other) /\
  (forall error2, mark_failed url error2 r' = mark_failed url error2 r) /\
  get_failed_count r'
    = get_failed_count r + (if failed_urls r !! url is Some _ then 0 else 1) /\
  crawl_queue r' = crawl_queue r /\ visited_urls r' = visited_urls r.
Proof.
  unfold mark_failed, get_failed_count. simpl.
  split; [apply lookup_insert_eq|]. split; [by intros; apply lookup_insert_ne|].
  split; [by intros; rewrite insert_insert_eq|]. split; [|done].
  destruct (failed_urls r !! url) as [old|] eqn:E.
  - rewrite map_size_insert_Some by done. lia.
  - rewrite map_size_insert_None by done. lia.
Qed.

End FrontierMore.

(** ** More about [fetch_page] *)

Section FetcherMore.

Import Fetcher.

Context (self : URLFetcher) (net : Network).

Lemma fetch_loop_success (n : nat) (attempt : Z) (k : nat) (response : option Response)
    (code : Z) (body : string) :
  replies net k = Responded code body ->
  is_success code = true ->
  fetch_loop self net (S n) attempt k response
  = (sleep_and_get self net attempt k, Ok (mkResponse code body)).
Proof. intros Hk Hs. cbn [fetch_loop]. by rewrite Hk, Hs. Qed.

(** after [m] retriable replies the loop returns the first successful one *)
Lemma fetch_loop_returns_success (m : nat) :
  forall (remaining : nat) (attempt : Z) (k : nat) (response : option Response)
         (code : Z) (body : string),
  (m < remaining)%nat ->
  attempt + Z.of_nat remaining = retries self + 1 ->
  (forall j, (k <= j < k + m)%nat -> retriable (replies net j) = true) ->
  replies net (k + m) = Responded code body ->
  is_success code = true ->
  snd (fetch_loop self net remaining attempt k response) = Ok (mkResponse code body) /\
  attempts (fst (fetch_loop self net remaining attempt k response)) = S m.
Proof.
  induction m as [|m IH]; intros remaining attempt k response code body Hm Hatt Hret He Hs;
    (destruct remaining as [|n]; [lia|]).
  - replace (k + 0)%nat with k in He by lia.
    by rewrite (fetch_loop_success _ _ _ _ code body).
  - destruct (fetch_loop_retry self net n attempt k response) as [resp ->];
      [apply Hret; lia|lia|].
    rewrite attempts_after. cbn [after_events snd].
    destruct (IH n (attempt + 1) (S k) resp code body) as [-> ->]; [lia|lia| | |done|done].
    + intros j Hj. apply Hret. lia.
    + by replace (S k + m)%nat with (k + S m)%nat by lia.
Qed.

(** X6: when the first [k] replies are retriable failures and reply
    [k + 1 <= retries] has a 2xx status, [fetch_page] returns that response
    after exactly [k + 1] requests: earlier failures are absorbed. *)
Theorem fetch_page_returns_first_success (k : nat) (code : Z) (body : string) :
  Z.of_nat k < retries self ->
  (forall j, (j < k)%nat -> retriable (replies net j) = true) ->
  replies net k = Responded code body ->
  is_success code = true ->
  snd (fetch_page self net) = Ok (mkResponse code body) /\
  attempts (fst (fetch_page self net)) = S k.
Proof.
  intros Hk Hret He Hs. unfold fetch_page.
  apply (fetch_loop_returns_success k); [lia|lia| |done|done].
  intros j Hj. apply Hret. lia.
Qed.

(** X7: with [retries <= 0] the loop body never runs: [fetch_page]
    neither sleeps nor requests, and the [return response] after the loop
    raises [UnboundLocalError], which is not a [FetchError]. *)
Theorem fetch_page_without_retries_raises_UnboundLocalError :
  retries self <= 0 ->
  fst (fetch_page self net) = [] /\
  (exists m, snd (fetch_page self net) = Raise (UnboundLocalError m)) /\
  (forall m, snd (fetch_page self net) <> Raise (FetchError m)).
Proof.
  intros H. unfold fetch_page.
  assert (Z.to_nat (retries self) = 0%nat) as -> by lia.
  simpl. split; [done|]. split; [by eexists|done].
Qed.

(** For the four kinds of reply, the loop returns only 2xx responses,
    raises only [FetchError], and makes no more requests than iterations
    are left. *)
Lemma fetch_loop_outcomes (remaining : nat) :
  forall (attempt : Z) (k : nat) (response : option Response),
  attempt + Z.of_nat remaining = retries self ->
  let out := fetch_loop self net (S remaining) attempt k response in
  (attempts (fst out) <= S remaining)%nat /\
  (1 <= attempts (fst out))%nat /\
  match snd out with
  | Ok r => is_success (status_code r) = true
  | Raise e => is_FetchError e = true
  end.
Proof.
  induction remaining as [|n IH]; intros attempt k response Hatt out; subst out.
  - assert ((attempt =? retries self) = true) as Hlast by lia.
    cbn [fetch_loop]. rewrite attempts_after, Hlast. cbn [after_events snd].
    destruct (replies net k) as [code body| | |];
      try destruct (is_success code) eqn:Hs; cbn [fst snd attempts List.filter length];
      (split; [lia|split; [lia|done]]).
  - assert ((attempt =? retries self) = false) as Hnot by lia.
    cbn [fetch_loop]. rewrite attempts_after, Hnot. cbn [after_events snd].
    assert (forall resp,
      (S (attempts (fst (fetch_loop self net (S n) (attempt + 1) (S k) resp))) <= S (S n))%nat /\
      (1 <= S (attempts (fst (fetch_loop self net (S n) (attempt + 1) (S k) resp))))%nat /\
      match snd (fetch_loop self net (S n) (attempt + 1) (S k) resp) with
      | Ok r => is_success (status_code r) = true
      | Raise e => is_FetchError e = true
      end) as Hnext.
    { intros resp.
      destruct (IH (attempt + 1) (S k) resp ltac:(lia)) as (H1 & H2 & H3).
      split; [lia|]. split; [lia|done]. }
    destruct (replies net k) as [code body| | |]; try apply Hnext.
    + destruct (is_success code) eqn:Hs; [|apply Hnext].
      cbn [fst snd attempts List.filter length]. split; [lia|]. split; [lia|done].
    + cbn [fst snd attempts List.filter length]. split; [lia|]. split; [lia|done].
Qed.

(** X8: with [retries >= 1], [fetch_page] makes at most [retries]
    requests, and a response it returns has a 2xx status and comes after at
    least one request: the [return response] after the loop, which would
    hand back the last response with another status, is not reached. *)
Theorem fetch_page_returns_only_success :
  1 <= retries self ->
  (attempts (fst (fetch_page self net)) <= Z.to_nat (retries self))%nat /\
  (forall r, snd (fetch_page self net) = Ok r ->
     is_success (status_code r) = true /\
     (1 <= attempts (fst (fetch_page self net)))%nat).
Proof.
  intros H. unfold fetch_page.
  destruct (Z.to_nat (retries self)) as [|n] eqn:En; [lia|].
  destruct (fetch_loop_outcomes n 1 0%nat None ltac:(lia)) as (H1 & H2 & H3).
  split; [lia|].
  destruct (snd (fetch_loop self net (S n) 1 0 None)); intros ? [= <-]; done.
Qed.

End FetcherMore.

Lemma fetch_page_returns_first_success_witness :
  let net := Fetcher.mkNetwork (fun _ => 0)
               (fun k => match k with
                         | O => Fetcher.Responded 503 EmptyString
                         | 1%nat => Fetcher.TimeoutException "timed out"
                         | _ => Fetcher.Responded 200 "<html></html>"
                         end) in
  let out := Fetcher.fetch_page (Fetcher.mkFetcher 10 3 3) net in
  snd out = Ok (Fetcher.mkResponse 200 "<html></html>") /\
  Fetcher.attempts (fst out) = 3%nat.
Proof.
  intros net out.
  apply (fetch_page_returns_first_success (Fetcher.mkFetcher 10 3 3) net 2 200 "<html></html>").
  - simpl. lia.
  - intros [|[|j]] Hj; [reflexivity|reflexivity|lia].
  - reflexivity.
  - reflexivity.
Defined.

Lemma fetch_page_without_retries_witness :
  let out := Fetcher.fetch_page (Fetcher.mkFetcher 10 0 3) network_404 in
  fst out = [] /\
  (exists m, snd out = Raise (UnboundLocalError m)) /\
  (forall m, snd out <> Raise (FetchError m)).
Proof.
  intros out.
  apply (fetch_page_without_retries_raises_UnboundLocalError (Fetcher.mkFetcher 10 0 3)
           network_404).
  simpl. lia.
Defined.

Lemma fetch_page_returns_only_success_witness :
  let net := Fetcher.mkNetwork (fun _ => 0)
               (fun k => match k with
                         | O => Fetcher.Responded 503 "busy"
                         | _ => Fetcher.Responded 200 "<html></html>"
                         end) in
  let out := Fetcher.fetch_page (Fetcher.mkFetcher 10 3 3) net in
  snd out = Ok (Fetcher.mkResponse 200 "<html></html>") /\
  (Fetcher.attempts (fst out) <= 3)%nat /\
  Fetcher.is_success 200 = true.
Proof.
  intros net out.
  destruct (fetch_page_returns_only_success (Fetcher.mkFetcher 10 3 3) net ltac:(simpl; lia))
    as (H1 & H2).
  split; [reflexivity|]. split; [exact H1|].
  exact (proj1 (H2 (Fetcher.mkResponse 200 "<html></html>") eq_refl)).
Defined.

(** ** More about the helpers *)

Section HelpersMore.

Context (hc : Urllib.HostChecks).

Lemma replace_underscores_none_left (s : string) :
  Py.contains "_" (Py.replace_char "_" " " s) = false.
Proof.
  induction s as [|a s IH]; simpl; [done|].
  destruct (Ascii.eqb a "_") eqn:E.
  - exact IH.
  - simpl. by rewrite E.
Qed.

(** X9: [extract_npc_name_from_url] fails exactly when [url_to_filename]
    fails, with the exception of [urlparse]; a name it returns holds no
    underscore; and when the last path component holds no ['%'], the name
    is that component with every underscore turned into a space. *)
Theorem extract_npc_name_replaces_underscores (decode_escapes : string -> string)
    (url : string) :
  (forall e ext, extract_npc_name_from_url hc (unquote decode_escapes) url = Raise e <->
                 url_to_filename hc url ext = Raise e) /\
  (forall name, extract_npc_name_from_url hc (unquote decode_escapes) url = Ok name ->
                Py.contains "_" name = false) /\
  (forall p, urlparse_path hc url = Ok p ->
             Py.contains "%" (last_component p) = false ->
             extract_npc_name_from_url hc (unquote decode_escapes) url
             = Ok (Py.replace_char "_" " " (last_component p))).
Proof.
  unfold extract_npc_name_from_url, url_to_filename.
  split; [|split].
  - intros e ext. destruct (urlparse_path hc url) as [p|e']; simpl; [|done].
    by destruct ext.
  - intros name. destruct (urlparse_path hc url) as [p|e']; simpl; [|done].
    intros [= <-]. apply replace_underscores_none_left.
  - intros p Hp Hpct. rewrite Hp. simpl.
    destruct (urlparse_path_facts hc url p Hp) as (_ & Hf & Hq).
    destruct (last_component_plain p Hf Hq) as (_ & _ & _ & Hhash).
    fold (last_component p). rewrite hd_split, cut_absent by done. simpl.
    unfold unquote. by rewrite Hpct.
Qed.

End HelpersMore.

Lemma extract_npc_name_replaces_underscores_witness :
  extract_npc_name_from_url accept_all_hosts (unquote no_escapes)
    "https://oldschool.runescape.wiki/w/Abyssal_guardian_(Guardians_of_the_Rift)"
  = Ok "Abyssal guardian (Guardians of the Rift)".
Proof.
  destruct (extract_npc_name_replaces_underscores accept_all_hosts no_escapes
              "https://oldschool.runescape.wiki/w/Abyssal_guardian_(Guardians_of_the_Rift)")
    as (_ & _ & H).
  exact (H "/w/Abyssal_guardian_(Guardians_of_the_Rift)" eq_refl eq_refl).
Defined.

(** ** More about the page record store *)

Section CrudMore.

Import Sql.

Context (utcnow : nat -> Z).

Lemma first_by_url_update_first (u v : string) (f : CrawledPage -> CrawledPage)
    (rows : list CrawledPage) :
  (forall q, url (f q) = url q) ->
  first_by_url v (update_first u f rows)
  = if String.eqb v u then f <$> first_by_url u rows else first_by_url v rows.
Proof.
  intros Hf. unfold first_by_url. induction rows as [|r rows IH]; simpl.
  - by destruct (String.eqb v u).
  - destruct (String.eqb_spec (url r) u) as [Hu|Hne]; simpl.
    + rewrite Hf. destruct (String.eqb_spec v u) as [->|Hvu].
      * by rewrite (proj2 (String.eqb_eq _ _) Hu).
      * assert (String.eqb (url r) v = false) as -> by (apply String.eqb_neq; congruence).
        done.
    + destruct (String.eqb_spec (url r) v) as [Hv|Hnv].
      * destruct (String.eqb_spec v u) as [->|Hvu]; [done|done].
      * exact IH.
Qed.

Lemma first_by_url_app (v : string) (rows : list CrawledPage) (p : CrawledPage) :
  first_by_url v (rows ++ [p])
  = match first_by_url v rows with
    | Some q => Some q
    | None => if String.eqb (url p) v then Some p else None
    end.
Proof.
  unfold first_by_url. induction rows as [|r rows IH]; simpl; [done|].
  by destruct (String.eqb (url r) v).
Qed.

Lemma get_crawled_page_None (u : string) (db : Database) :
  get_crawled_page u db = None <-> first_by_url u (crawled_pages db) = None.
Proof. unfold get_crawled_page. by destruct (first_by_url u (crawled_pages db)). Qed.

Lemma filter_url_update_first (u v : string) (f : CrawledPage -> CrawledPage)
    (rows : list CrawledPage) :
  (forall q, url (f q) = url q) -> v <> u ->
  List.filter (fun q => String.eqb (url q) v) (update_first u f rows)
  = List.filter (fun q => String.eqb (url q) v) rows.
Proof.
  intros Hf Hv. induction rows as [|r rows IH]; simpl; [done|].
  destruct (String.eqb_spec (url r) u) as [Hu|Hne]; simpl.
  - rewrite Hf. by destruct (String.eqb_spec (url r) v); [congruence|].
  - by rewrite IH.
Qed.

(** the first row under the URL after an upsert, and the rows of the
    other URLs; no uniqueness is assumed *)
Lemma add_crawled_page_body_lookup (a : PageFields) (db : Database) :
  let db' := add_crawled_page_body utcnow a db in
  (exists p, first_by_url (f_url a) (crawled_pages db') = Some p /\ carries a p) /\
  (forall v, v <> f_url a ->
     first_by_url v (crawled_pages db') = first_by_url v (crawled_pages db) /\
     rows_of v db' = rows_of v db).
Proof.
  intros db'. subst db'. unfold add_crawled_page_body, rows_of.
  pose proof (upserted_carries utcnow a db) as Hc. unfold upserted in Hc.
  destruct (first_by_url (f_url a) (crawled_pages db)) as [p|] eqn:E; cbn [crawled_pages].
  - split.
    + exists (updated_row a (utcnow (clock_reads db)) p).
      rewrite first_by_url_update_first by done. by rewrite String.eqb_refl, E.
    + intros v Hv. rewrite first_by_url_update_first by done.
      rewrite (proj2 (String.eqb_neq _ _) Hv). split; [done|].
      by apply filter_url_update_first.
  - split.
    + eexists. rewrite first_by_url_app, E. cbn [url inserted_row].
      by rewrite String.eqb_refl.
    + intros v Hv. rewrite first_by_url_app, filter_url_app. cbn [url inserted_row].
      rewrite (proj2 (String.eqb_neq _ _) (not_eq_sym Hv)), app_nil_r.
      split; [|done]. by destruct (first_by_url v (crawled_pages db)).
Qed.

(** X10: after [add_crawled_page], the first row stored under the URL
    carries the name, content, status, sizes and [has_image] of the call
    and every image field of the call that is a non-empty string, and
    [get_crawled_page] of the URL returns an instance, not [None].  For
    every other URL the rows stored under it and the first of them are as
    before, and [get_crawled_page] answers as before.  No uniqueness of
    URLs is needed for this. *)
Theorem add_crawled_page_then_lookup (a : PageFields) (db : Database) :
  let db' := (add_crawled_page utcnow None a db).2 in
  (exists p, first_by_url (f_url a) (crawled_pages db') = Some p /\ carries a p) /\
  get_crawled_page (f_url a) db' = Some Detached /\
  (forall v, v <> f_url a ->
     first_by_url v (crawled_pages db') = first_by_url v (crawled_pages db) /\
     rows_of v db' = rows_of v db /\
     get_crawled_page v db' = get_crawled_page v db).
Proof.
  intros db'. subst db'. unfold add_crawled_page, get_session. cbn [snd].
  destruct (add_crawled_page_body_lookup a db) as [(p & Hp & Hc) Hoth].
  split; [by exists p|]. split.
  - unfold get_crawled_page. by rewrite Hp.
  - intros v Hv. destruct (Hoth v Hv) as [H1 H2].
    split; [done|]. split; [done|]. unfold get_crawled_page. by rewrite H1.
Qed.

Lemma delete_first_spec (u : string) (rows : list CrawledPage) :
  NoDup (List.map url rows) ->
  NoDup (List.map url (Crud.delete_first u rows)) /\
  first_by_url u (Crud.delete_first u rows) = None /\
  (forall v, v <> u ->
     first_by_url v (Crud.delete_first u rows) = first_by_url v rows /\
     List.filter (fun p => String.eqb (url p) v) (Crud.delete_first u rows)
     = List.filter (fun p => String.eqb (url p) v) rows) /\
  (forall q, In q (Crud.delete_first u rows) -> In q rows /\ url q <> u) /\
  length (Crud.delete_first u rows)
  = (length rows - (if first_by_url u rows is Some _ then 1 else 0))%nat.
Proof.
  unfold first_by_url. induction rows as [|r rows IH]; simpl; intros Hnd.
  - repeat split; try done.
  - apply NoDup_cons in Hnd as [Hr Hnd]. rewrite list_elem_of_In in Hr.
    destruct (IH Hnd) as (IH1 & IH2 & IH3 & IH4 & IH5).
    destruct (String.eqb_spec (url r) u) as [Hu|Hne].
    + subst u. split; [done|]. split.
      { destruct (List.find _ rows) as [q|] eqn:E; [|done].
        apply List.find_some in E as [Hq E]. apply String.eqb_eq in E.
        exfalso. apply Hr. rewrite <- E. by apply List.in_map. }
      split; [|split].
      * intros v Hv. by rewrite (proj2 (String.eqb_neq _ _) (not_eq_sym Hv)).
      * intros q Hq. split; [by right|]. intros Heq. apply Hr. rewrite <- Heq.
        by apply List.in_map.
      * lia.
    + simpl. split; [|split; [|split; [|split]]].
      * apply NoDup_cons. split; [|done]. rewrite list_elem_of_In.
        intros Hin. apply Hr. apply List.in_map_iff in Hin as (q & Hq1 & Hq2).
        apply List.in_map_iff. exists q. split; [done|]. by apply IH4.
      * by rewrite (proj2 (String.eqb_neq _ _) Hne).
      * intros v Hv. destruct (IH3 v Hv) as [-> ->]. done.
      * intros q [<-|Hq]; [auto|]. destruct (IH4 q Hq). auto.
      * rewrite IH5. destruct (List.find _ rows) as [q|] eqn:E; [|lia].
        apply List.find_some in E as [Hq _]. destruct rows; [done|simpl; lia].
Qed.

Lemma delete_crawled_page_body_spec (u : string) (db : Database) :
  unique_urls db ->
  let db' := Crud.delete_crawled_page_body u db in
  unique_urls db' /\
  get_crawled_page u db' = None /\
  rows_of u db' = [] /\
  (forall v, v <> u ->
     get_crawled_page v db' = get_crawled_page v db /\ rows_of v db' = rows_of v db) /\
  length (crawled_pages db')
  = (length (crawled_pages db) - (if get_crawled_page u db is Some _ then 1 else 0))%nat /\
  (get_crawled_page u db = None -> db' = db) /\
  clock_reads db' = clock_reads db.
Proof.
  intros Hu db'. subst db'.
  unfold Crud.delete_crawled_page_body, get_crawled_page, rows_of, unique_urls in *.
  destruct (delete_first_spec u (crawled_pages db) Hu) as (H1 & H2 & H3 & H4 & H5).
  destruct (first_by_url u (crawled_pages db)) as [p|] eqn:E; cbn [crawled_pages clock_reads].
  - split; [done|]. split; [by rewrite H2|]. split; [|split; [|split; [done|done]]].
    + apply first_by_url_None in H2 as [_ H2]. exact H2.
    + intros v Hv. destruct (H3 v Hv) as [-> ->]. done.
  - rewrite E. split; [done|]. split; [done|]. split; [|split; [|split; [lia|done]]].
    + by apply first_by_url_None in E as [_ E].
    + done.
Qed.

(** X11: on a table with unique URLs, after [delete_crawled_page] the
    URL has no row (lookup returns [None]), the lookups and rows of every
    other URL are as before, the URLs stay unique, and exactly one row is
    gone when there was one; deleting a URL that has no row changes
    nothing. *)
Theorem delete_crawled_page_removes_the_row (u : string) (db : Database) :
  unique_urls db ->
  let db' := (Crud.delete_crawled_page None u db).2 in
  unique_urls db' /\
  get_crawled_page u db' = None /\
  rows_of u db' = [] /\
  (forall v, v <> u ->
     get_crawled_page v db' = get_crawled_page v db /\ rows_of v db' = rows_of v db) /\
  length (crawled_pages db')
  = (length (crawled_pages db) - (if get_crawled_page u db is Some _ then 1 else 0))%nat /\
  (get_crawled_page u db = None -> db' = db).
Proof.
  intros Hu db'. subst db'. unfold Crud.delete_crawled_page, get_session. cbn [snd].
  destruct (delete_crawled_page_body_spec u db Hu) as (H1 & H2 & H3 & H4 & H5 & H6 & _).
  done.
Qed.

(** X12: a deleted page that is added again is a new row: it gets both
    timestamps from the clock readings of the insert, and its image fields
    are those of the call, with the column default ["no_image"] for a
    missing status; nothing of the deleted row survives. *)
Theorem add_after_delete_is_a_fresh_insert (a : PageFields) (db : Database) :
  unique_urls db ->
  let db1 := (Crud.delete_crawled_page None (f_url a) db).2 in
  let db2 := (add_crawled_page utcnow None a db1).2 in
  exists p,
    rows_of (f_url a) db2 = [p] /\
    crawled_at p = utcnow (clock_reads db) /\
    updated_at p = utcnow (S (clock_reads db)) /\
    image_url p = (if Py.truthy_opt (f_image_url a) then f_image_url a else None) /\
    image_filename p
      = (if Py.truthy_opt (f_image_filename a) then f_image_filename a else None) /\
    image_status p
      = (if Py.truthy_opt (f_image_status a) then f_image_status a else Some "no_image").
Proof.
  intros Hu db1 db2.
  destruct (delete_crawled_page_body_spec (f_url a) db Hu)
    as (Hu1 & Hg1 & _ & _ & _ & _ & Hc1).
  change (Crud.delete_crawled_page_body (f_url a) db) with db1 in Hu1, Hg1, Hc1.
  destruct (add_crawled_page_body_spec utcnow a db1 Hu1) as (_ & Hrows & _).
  change (add_crawled_page_body utcnow a db1) with db2 in Hrows.
  exists (upserted utcnow a db1). split; [exact Hrows|].
  apply get_crawled_page_None in Hg1.
  unfold upserted. rewrite Hg1, Hc1. done.
Qed.

Lemma length_by_status_update_first (s u : string) (f : CrawledPage -> CrawledPage)
    (rows : list CrawledPage) (p : CrawledPage) :
  (forall q, url (f q) = url q) ->
  first_by_url u rows = Some p ->
  NoDup (List.map url rows) ->
  length (List.filter (fun q => String.eqb (status q) s) (update_first u f rows))
  = (length (List.filter (fun q => String.eqb (status q) s && negb (String.eqb (url q) u)) rows)
     + (if String.eqb (status (f p)) s then 1 else 0))%nat.
Proof.
  intros Hf. unfold first_by_url. induction rows as [|r rows IH]; simpl; [done|].
  intros Hfind Hnd. apply NoDup_cons in Hnd as [Hr Hnd]. rewrite list_elem_of_In in Hr.
  destruct (String.eqb_spec (url r) u) as [Hu|Hne].
  - injection Hfind as ->. subst u. simpl. rewrite andb_false_r.
    assert (List.filter (fun q => String.eqb (status q) s && negb (String.eqb (url q) (url p))) rows
            = List.filter (fun q => String.eqb (status q) s) rows) as ->.
    { apply List.filter_ext_in. intros q Hq.
      destruct (String.eqb_spec (url q) (url p)) as [Heq|_]; [|by rewrite andb_true_r].
      exfalso. apply Hr. rewrite <- Heq. by apply List.in_map. }
    destruct (String.eqb (status (f p)) s); simpl; lia.
  - simpl. rewrite andb_true_r.
    destruct (String.eqb (status r) s); simpl; rewrite (IH Hfind Hnd); lia.
Qed.

(** X13: on a table with unique URLs, after [add_crawled_page] the
    number of instances [get_crawled_pages_by_status] returns for a status
    is the number of rows of the other URLs that have this status, plus
    one when the status is the one of the call: the page of the URL is
    counted under its new status and under no other. *)
Theorem get_crawled_pages_by_status_follows_the_upsert (a : PageFields) (db : Database) :
  unique_urls db ->
  let db' := (add_crawled_page utcnow None a db).2 in
  forall s,
    length (Crud.get_crawled_pages_by_status s db')
    = (length (List.filter
                 (fun q => String.eqb (status q) s && negb (String.eqb (url q) (f_url a)))
                 (crawled_pages db))
       + (if String.eqb (f_status a) s then 1 else 0))%nat.
Proof.
  intros Hu db' s. subst db'. unfold add_crawled_page, get_session. cbn [snd].
  unfold Crud.get_crawled_pages_by_status, add_crawled_page_body. rewrite List.length_map.
  destruct (first_by_url (f_url a) (crawled_pages db)) as [p|] eqn:E; cbn [crawled_pages].
  - by rewrite (length_by_status_update_first s (f_url a)
                  (updated_row a (utcnow (clock_reads db))) _ p ltac:(done) E Hu).
  - destruct (first_by_url_None _ _ E) as [Hn _].
    rewrite List.filter_app, List.length_app. cbn [List.filter status inserted_row].
    assert (List.filter (fun q => String.eqb (status q) s && negb (String.eqb (url q) (f_url a)))
              (crawled_pages db)
            = List.filter (fun q => String.eqb (status q) s) (crawled_pages db)) as ->.
    { apply List.filter_ext_in. intros q Hq.
      destruct (String.eqb_spec (url q) (f_url a)) as [Heq|_]; [|by rewrite andb_true_r].
      exfalso. apply Hn. rewrite <- Heq. by apply List.in_map. }
    by destruct (String.eqb (f_status a) s).
Qed.

(** X14: [get_crawled_pages_by_npc_name] returns the stored rows of that
    name in table order; the field-by-field copy it makes of each row
    loses and changes nothing, so every returned page carries the name and
    is a row of the table. *)
Theorem get_crawled_pages_by_npc_name_copies_rows (name : string) (db : Database) :
  Crud.get_crawled_pages_by_npc_name name db
  = List.filter (fun p => String.eqb (npc_name p) name) (crawled_pages db) /\
  (forall q, In q (Crud.get_crawled_pages_by_npc_name name db)
             <-> In q (crawled_pages db) /\ npc_name q = name).
Proof.
  assert (Crud.get_crawled_pages_by_npc_name name db
          = List.filter (fun p => String.eqb (npc_name p) name) (crawled_pages db)) as H.
  { unfold Crud.get_crawled_pages_by_npc_name.
    rewrite <- (List.map_id (List.filter _ _)) at 2.
    apply List.map_ext. by intros []. }
  split; [exact H|]. intros q. rewrite H, List.filter_In. by rewrite String.eqb_eq.
Qed.

End CrudMore.

Lemma two_pages_db_unique : Sql.unique_urls two_pages_db.
Proof.
  unfold Sql.unique_urls. vm_compute.
  apply NoDup_cons. split; [|apply NoDup_singleton].
  intros H. apply list_elem_of_singleton in H. discriminate H.
Qed.

Lemma delete_crawled_page_removes_the_row_witness :
  let db' := (Crud.delete_crawled_page None hans_url two_pages_db).2 in
  Sql.get_crawled_page hans_url db' = None /\
  length (Sql.crawled_pages db') = 1%nat.
Proof.
  intros db'.
  destruct (delete_crawled_page_removes_the_row hans_url two_pages_db two_pages_db_unique)
    as (_ & H1 & _ & _ & H2 & _).
  split; [exact H1|exact H2].
Defined.

Lemma add_after_delete_is_a_fresh_insert_witness :
  let db1 := (Crud.delete_crawled_page None hans_url two_pages_db).2 in
  let db2 := (Sql.add_crawled_page ticking_clock None hans_fields db1).2 in
  exists p, Sql.rows_of hans_url db2 = [p] /\ Sql.crawled_at p = 4.
Proof.
  intros db1 db2.
  destruct (add_after_delete_is_a_fresh_insert ticking_clock hans_fields two_pages_db
              two_pages_db_unique) as (p & H1 & H2 & _).
  exists p. split; [exact H1|exact H2].
Defined.

Lemma get_crawled_pages_by_status_follows_the_upsert_witness :
  let a := Sql.mkFields bob_url "Bob" "data/raw_html/Bob.html" false None None None 0
             "success" 512 in
  let db' := (Sql.add_crawled_page ticking_clock None a two_pages_db).2 in
  length (Crud.get_crawled_pages_by_status "success" two_pages_db) = 1%nat /\
  length (Crud.get_crawled_pages_by_status "success" db') = 2%nat /\
  length (Crud.get_crawled_pages_by_status "failed" db') = 0%nat.
Proof.
  intros a db'. split; [reflexivity|].
  pose proof (get_crawled_pages_by_status_follows_the_upsert ticking_clock a two_pages_db
                two_pages_db_unique) as H.
  split; [exact (H "success")|exact (H "failed")].
Defined.
